(** * Small Language Model: the retrieval-augmented question answering pipeline

    A shallow embedding of the functions of [Small_Language_Model.ipynb]
    ([chunk_text], [encode_text], [build_faiss_index], [retrieve_text],
    [generate_answer], [answer_question] and the interactive driver) and the
    properties of the pipeline proved about them.

    Conventions.
    - A Python [str] is a [string]; each character stands for one code point
      below 256.
    - Python integers are [Z].  A float32 number is the rational [Q] it
      denotes; infinities and NaN are left out.  The arithmetic of the
      library on such numbers is not exact: the one routine that matters,
      the distance of two vectors, is a field of the index, so that every
      result holds for whatever rounding the library performs.
    - A Python exception is an [Err] result; the runs of the pretrained
      models are recorded in a log that is threaded through the
      computation. *)

From Stdlib Require Import List String Ascii Bool Arith ZArith QArith Lia.
From Stdlib Require Import Sorting.Sorted Sorting.Permutation FinFun.
Import ListNotations.

Local Open Scope list_scope.

(* ================================================================== *)
(** * Python built-ins used by the notebook *)

Module Py.

(** Exceptions that the modelled code can raise. *)
Inductive exn : Type :=
| IndexError
| AssertionError
| AttributeError
| EOFError
| CapabilityFailure (msg : string).

Inductive result (A : Type) : Type :=
| Ok (a : A)
| Err (e : exn).
Arguments Ok {A} a.
Arguments Err {A} e.

(** [str.isspace] on one code point below 256. *)
Definition isspace (c : ascii) : bool :=
  let n := nat_of_ascii c in
  ((9 <=? n) && (n <=? 13)) || ((28 <=? n) && (n <=? 32))
  || (n =? 133) || (n =? 160).

(** [str.split()] without arguments: maximal runs of non-space
    characters.  [cur] is the word being read. *)
Fixpoint split_from (cur : string) (s : string) : list string :=
  match s with
  | EmptyString => match cur with EmptyString => [] | _ => [cur] end
  | String c s' =>
      if isspace c
      then match cur with
           | EmptyString => split_from EmptyString s'
           | _ => cur :: split_from EmptyString s'
           end
      else split_from (cur ++ String c EmptyString) s'
  end.

Definition split (s : string) : list string := split_from EmptyString s.

(** [sep.join(items)]. *)
Fixpoint join (sep : string) (items : list string) : string :=
  match items with
  | [] => EmptyString
  | x :: rest =>
      match rest with
      | [] => x
      | _ :: _ => (x ++ sep ++ join sep rest)%string
      end
  end.

(** [items[i]] for a list: negative indices count from the end, anything
    outside [-len, len) raises [IndexError]. *)
Definition getitem {A} (items : list A) (i : Z) : result A :=
  let n := Z.of_nat (List.length items) in
  let j := (if i <? 0 then i + n else i)%Z in
  if ((0 <=? j) && (j <? n))%Z
  then match nth_error items (Z.to_nat j) with
       | Some x => Ok x
       | None => Err IndexError
       end
  else Err IndexError.

(** [c.lower()] on one code point below 256. *)
Definition lower_char (c : ascii) : ascii :=
  let n := nat_of_ascii c in
  if ((65 <=? n) && (n <=? 90))
     || ((192 <=? n) && (n <=? 222) && negb (n =? 215))
  then ascii_of_nat (n + 32) else c.

Fixpoint lower (s : string) : string :=
  match s with
  | EmptyString => EmptyString
  | String c s' => String (lower_char c) (lower s')
  end.

End Py.
Import Py.

(* ================================================================== *)
(** * Chunking the book text *)

Module Chunker.

(** The three variables of the loop of [chunk_text]. *)
Record loop_state : Type := {
  chunks : list string;
  current_chunk : list string;
  current_length : Z
}.

Definition loop_init : loop_state :=
  {| chunks := []; current_chunk := []; current_length := 0 |}.

(** One iteration of [for sentence in sentences]. *)
Definition loop_body (chunk_size : Z) (st : loop_state) (sentence : string)
  : loop_state :=
  let current_length' :=
    (current_length st + Z.of_nat (List.length (split sentence)))%Z in
  let current_chunk' := current_chunk st ++ [sentence] in
  if (current_length' >=? chunk_size)%Z
  then {| chunks := chunks st ++ [join " " current_chunk'];
          current_chunk := [];
          current_length := 0 |}
  else {| chunks := chunks st;
          current_chunk := current_chunk';
          current_length := current_length' |}.

(** What follows the loop: a non-empty [current_chunk] becomes the last
    chunk. *)
Definition loop_exit (st : loop_state) : list string :=
  match current_chunk st with
  | [] => chunks st
  | _ :: _ => chunks st ++ [join " " (current_chunk st)]
  end.

Section WithTokenizer.
(** [nltk.tokenize.sent_tokenize], a pretrained sentence splitter. *)
Variable sent_tokenize : string -> list string.

Definition chunk_text (text : string) (chunk_size : Z) : list string :=
  let sentences := sent_tokenize text in
  loop_exit (fold_left (loop_body chunk_size) sentences loop_init).
End WithTokenizer.

Definition default_chunk_size : Z := 200.

(** Number of words of a sentence, [len(sentence.split())]. *)
Definition word_count (s : string) : Z := Z.of_nat (List.length (split s)).

Definition total_words (sentences : list string) : Z :=
  fold_right (fun s acc => (word_count s + acc)%Z) 0%Z sentences.

(** The sentences of each chunk before they are joined: the grouping that
    the loop computes, given the sentences still to read, the current
    chunk and its length. *)
Fixpoint groups_from (chunk_size : Z) (sentences cur : list string) (len : Z)
  : list (list string) :=
  match sentences with
  | [] => match cur with [] => [] | _ :: _ => [cur] end
  | s :: rest =>
      let len' := (len + word_count s)%Z in
      let cur' := cur ++ [s] in
      if (len' >=? chunk_size)%Z
      then cur' :: groups_from chunk_size rest [] 0
      else groups_from chunk_size rest cur' len'
  end.

Definition chunk_groups (sentences : list string) (chunk_size : Z)
  : list (list string) :=
  groups_from chunk_size sentences [] 0.

End Chunker.

(* ================================================================== *)
(** * Calls to the pretrained models: a log and an error *)

Module Effects.

(** The runs of a pretrained model.  A run is recorded when the model is
    called, after its input has been tokenized. *)
Inductive call : Type :=
| Encode (text_list : list string)   (** the encoder is run on a batch *)
| Generate (input_text : string).    (** the generator is run on a prompt *)

(** A computation yields the calls it made and a value or an exception;
    nothing runs after an exception. *)
Definition M (A : Type) : Type := (list call * result A)%type.

Definition ret {A} (a : A) : M A := ([], Ok a).

Definition bind {A B} (m : M A) (f : A -> M B) : M B :=
  match m with
  | (l, Ok a) => let (l', r) := f a in (l ++ l', r)
  | (l, Err e) => (l, Err e)
  end.

Definition tell (c : call) : M unit := ([c], Ok tt).

Definition lift {A} (r : result A) : M A := ([], r).

Definition calls {A} (m : M A) : list call := fst m.
Definition outcome {A} (m : M A) : result A := snd m.

(** [[f(x) for x in xs]] where [f] may raise. *)
Fixpoint for_each {A B} (f : A -> result B) (xs : list A) : result (list B) :=
  match xs with
  | [] => Ok []
  | x :: rest =>
      match f x with
      | Err e => Err e
      | Ok y =>
          match for_each f rest with
          | Err e => Err e
          | Ok ys => Ok (y :: ys)
          end
      end
  end.

Definition is_generate (c : call) : bool :=
  match c with Generate _ => true | Encode _ => false end.

(** A computation that raises before it has called any model. *)
Definition fails_without_work {A} (m : M A) : Prop :=
  (exists e, outcome m = Err e) /\ calls m = [].

End Effects.
Import Effects.

Notation "x <- m ;; k" := (bind m (fun x => k))
  (at level 61, m at next level, right associativity).
Notation "' p <- m ;; k" := (bind m (fun x => match x with p => k end))
  (at level 61, p pattern, m at next level, right associativity).

(* ================================================================== *)
(** * The faiss flat L2 index

    faiss is a third-party library.  [IndexFlatL2] is modelled by its
    documented behaviour: it stores the vectors it is given, and a search
    compares the query with every stored vector by the squared Euclidean
    distance that the library computes in float32 arithmetic, and yields,
    per query, exactly [k] labels by increasing computed distance; when
    fewer than [k] vectors are stored the missing results carry the label
    [-1].  Among equal computed distances the lower label comes first. *)

Module Faiss.

Definition vec : Type := list Q.

(** A two-dimensional array of numbers, of shape [(len(rows), shape1)]:
    every row has [shape1] entries. *)
Record ndarray : Type := {
  shape1 : nat;
  rows : list vec
}.

(** The routine of the library that computes the squared Euclidean
    distance of two vectors in float32 arithmetic.  Its result is a float32
    number; how it rounds and in which order it adds is the library's
    business, so the routine is not defined here but carried by the
    index. *)
Definition kernel : Type := vec -> vec -> Q.

Record IndexFlatL2 : Type := {
  d : nat;            (** dimension of the stored vectors *)
  xb : list vec;      (** the stored vectors; the label of one is its position *)
  fvec_L2sqr : kernel (** the distance routine of the library *)
}.

Definition ntotal (index : IndexFlatL2) : nat := List.length (xb index).

(** [faiss.IndexFlatL2(d)], [faiss] being the library with its distance
    routine. *)
Definition new (faiss : kernel) (dim : nat) : IndexFlatL2 :=
  {| d := dim; xb := []; fvec_L2sqr := faiss |}.

(** [index.add(x)]: [x] must have [d] columns. *)
Definition add (index : IndexFlatL2) (x : ndarray) : result IndexFlatL2 :=
  if shape1 x =? d index
  then Ok {| d := d index; xb := xb index ++ rows x;
             fvec_L2sqr := fvec_L2sqr index |}
  else Err AssertionError.

(** Squared Euclidean distance in exact arithmetic. *)
Definition l2sqr (x y : vec) : Q :=
  fold_right Qplus 0%Q
    (map (fun p => ((fst p - snd p) * (fst p - snd p))%Q) (combine x y)).

(** Candidates: a label and the computed distance of its vector to the
    query. *)
Definition scored (index : IndexFlatL2) (q : vec) : list (Z * Q) :=
  map (fun p => (Z.of_nat (fst p), fvec_L2sqr index q (snd p)))
      (combine (seq 0 (ntotal index)) (xb index)).

(** Insertion by computed distance; float32 numbers compare as the
    rationals they denote. *)
Fixpoint insert (h : Z * Q) (sorted : list (Z * Q)) : list (Z * Q) :=
  match sorted with
  | [] => [h]
  | x :: rest =>
      if Qle_bool (snd h) (snd x) then h :: x :: rest
      else x :: insert h rest
  end.

Definition by_distance (l : list (Z * Q)) : list (Z * Q) :=
  fold_right insert [] l.

(** One result: a label and a distance; the distance of a missing result
    is the largest value there is, written [None]. *)
Definition hit : Type := (Z * option Q)%type.

Definition missing : hit := ((-1)%Z, None).

(** The [k] nearest candidates, nearest first. *)
Definition best (index : IndexFlatL2) (k : Z) (q : vec) : list (Z * Q) :=
  firstn (Z.to_nat k) (by_distance (scored index q)).

Definition search_one (index : IndexFlatL2) (k : Z) (q : vec) : list hit :=
  let found := best index k q in
  map (fun p => (fst p, Some (snd p))) found
  ++ repeat missing (Z.to_nat k - List.length found).

(** Order of the candidates by distance. *)
Definition closer (a b : Z * Q) : Prop := (snd a <= snd b)%Q.

(** [index.search(x, k)]: the distances and the labels, one row per row
    of [x].  [x] must have [d] columns and [k] must be positive. *)
Definition search (index : IndexFlatL2) (x : ndarray) (k : Z)
  : result (list (list (option Q)) * list (list Z)) :=
  if negb (shape1 x =? d index) then Err AssertionError
  else if (k <=? 0)%Z then Err AssertionError
  else
    let found := map (search_one index k) (rows x) in
    Ok (map (map snd) found, map (map fst) found).

(** Distances in result order: a missing result is at least as far as
    anything. *)
Definition dist_le (a b : option Q) : Prop :=
  match a, b with
  | _, None => True
  | None, Some _ => False
  | Some x, Some y => (x <= y)%Q
  end.

(** A result that names a stored vector and carries the distance that the
    index computes between it and the query. *)
Definition is_neighbour (index : IndexFlatL2) (q : vec) (h : hit) : Prop :=
  exists i : nat,
    (i < ntotal index)%nat
    /\ fst h = Z.of_nat i
    /\ snd h = Some (fvec_L2sqr index q (nth i (xb index) [])).

End Faiss.

(* ================================================================== *)
(** * The pretrained models as the notebook uses them *)

Module Models.

Import Faiss.

(** What is used of a [transformers] tokenizer.  Its internals are not
    part of the notebook; [decode] follows the library's contract for
    [skip_special_tokens]: the special ids are dropped, the rest is
    rendered. *)
Record Tokenizer : Type := {
  (** [tokenizer(text_list, padding=True, truncation=True, return_tensors="pt")] *)
  encode_batch : list string -> result (list (list Z));
  (** [tokenizer(input_text, return_tensors="pt", truncation=True)] *)
  encode : string -> result (list Z);
  all_special_ids : list Z;
  render : list Z -> string
}.

Definition is_special (tok : Tokenizer) (id : Z) : bool :=
  existsb (Z.eqb id) (all_special_ids tok).

(** [tokenizer.decode(ids, skip_special_tokens=...)]. *)
Definition decode (tok : Tokenizer) (ids : list Z) (skip_special_tokens : bool)
  : string :=
  render tok
    (if skip_special_tokens
     then filter (fun id => negb (is_special tok id)) ids
     else ids).

(** A three-dimensional array of shape [(len(items), positions,
    hidden_size)]: for every text, a vector per position. *)
Record tensor3 : Type := {
  hidden_size : nat;
  items : list (list vec)
}.

(** The output of the encoder: hidden states per text and position, or a
    pooled vector per text; either may be absent. *)
Record ModelOutput : Type := {
  last_hidden_state : option tensor3;
  pooler_output : option ndarray
}.

(** [model] applied to the tokenized inputs of the retrieval model. *)
Definition Encoder : Type := list (list Z) -> result ModelOutput.

(** [model.generate] applied to the tokenized inputs of the generation model: a batch of output
    sequences. *)
Record Seq2Seq : Type := {
  generate : list Z -> result (list (list Z))
}.

(** [t[:, 0, :]]: position 0 of every text. *)
Definition first_position (t : tensor3) : result ndarray :=
  match for_each (fun positions => getitem positions 0%Z) (items t) with
  | Ok firsts => Ok {| shape1 := hidden_size t; rows := firsts |}
  | Err e => Err e
  end.

End Models.

(* ================================================================== *)
(** * The functions of the notebook *)

Module Pipeline.

Import Faiss Models Chunker.

(** [encode_text(text_list, model, tokenizer)]. *)
Definition encode_text (text_list : list string) (model : Encoder)
           (tokenizer : Tokenizer) : M ndarray :=
  inputs <- lift (encode_batch tokenizer text_list) ;;
  _ <- tell (Encode text_list) ;;
  outputs <- lift (model inputs) ;;
  lift (match last_hidden_state outputs with
        | Some hidden => first_position hidden
        | None =>
            match pooler_output outputs with
            | Some pooled => Ok pooled
            | None => Err AttributeError
            end
        end).

(** [build_faiss_index(chunks, model, tokenizer)]; [faiss] is the library
    that the notebook imports. *)
Definition build_faiss_index (faiss : kernel) (chunks : list string)
           (model : Encoder) (tokenizer : Tokenizer)
  : M (IndexFlatL2 * ndarray) :=
  embeddings <- encode_text chunks model tokenizer ;;
  let index := Faiss.new faiss (shape1 embeddings) in
  index <- lift (Faiss.add index embeddings) ;;
  ret (index, embeddings).

Definition default_top_k : Z := 3.

(** [retrieve_text(query, chunks, index, model, tokenizer, top_k)]. *)
Definition retrieve_text (query : string) (chunks : list string)
           (index : IndexFlatL2) (model : Encoder) (tokenizer : Tokenizer)
           (top_k : Z) : M (list string) :=
  query_embedding <- encode_text [query] model tokenizer ;;
  ' (distances, indices) <- lift (Faiss.search index query_embedding top_k) ;;
  row <- lift (getitem indices 0%Z) ;;
  lift (for_each (fun i => getitem chunks i) row).

(** The f-string of [generate_answer]. *)
Definition input_text (context question : string) : string :=
  ("question: " ++ question ++ " context: " ++ context)%string.

(** [generate_answer(context, question, model, tokenizer)]. *)
Definition generate_answer (context question : string) (model : Seq2Seq)
           (tokenizer : Tokenizer) : M string :=
  inputs <- lift (encode tokenizer (input_text context question)) ;;
  _ <- tell (Generate (input_text context question)) ;;
  outputs <- lift (generate model inputs) ;;
  first_output <- lift (getitem outputs 0%Z) ;;
  ret (decode tokenizer first_output true).

Section WithGlobals.

(** The names the notebook binds at top level.  [sent_tokenize] is taken
    to return its sentences; were it to raise, the call would end there,
    before any model is run. *)
Variable sent_tokenize : string -> list string.
Variable faiss : kernel.
Variable retrieval_model : Encoder.
Variable tokenizer : Tokenizer.
Variable generation_model : Seq2Seq.
Variable generation_tokenizer : Tokenizer.

(** [answer_question(book_text, question)]. *)
Definition answer_question (book_text question : string) : M string :=
  let chunks := chunk_text sent_tokenize book_text default_chunk_size in
  ' (index, _) <- build_faiss_index faiss chunks retrieval_model tokenizer ;;
  relevant_text <-
    retrieve_text question chunks index retrieval_model tokenizer
                  default_top_k ;;
  let combined_context := join " " relevant_text in
  generate_answer combined_context question generation_model
                  generation_tokenizer.

(** ** The interactive driver

    Standard input is the list of the lines still to be read.  The
    prompts that [input] writes are not recorded; [printed] holds the
    lines written by [print]. *)

Record session : Type := {
  book_text : string;
  printed : list string;
  made : list call
}.

Inductive status : Type :=
| Running (s : session)
| Exited (s : session)
| Raised (s : session) (e : exn).

Definition session_of (st : status) : session :=
  match st with
  | Running s | Exited s | Raised s _ => s
  end.

(** The body of [while True], once [question] has been read. *)
Definition loop_iteration (s : session) (question : string) : status :=
  if String.eqb (lower question) "exit" then Exited s
  else
    match answer_question (book_text s) question with
    | (l, Ok answer) =>
        Running {| book_text := book_text s;
                   printed := printed s ++ [("Answer: " ++ answer)%string];
                   made := made s ++ l |}
    | (l, Err e) =>
        Raised {| book_text := book_text s;
                  printed := printed s;
                  made := made s ++ l |} e
    end.

Fixpoint main_loop (s : session) (stdin : list string) : status :=
  match stdin with
  | [] => Raised s EOFError
  | question :: rest =>
      match loop_iteration s question with
      | Running s' => main_loop s' rest
      | stopped => stopped
      end
  end.

(** The driver, once the book text has been read. *)
Definition main (text : string) (stdin : list string) : status :=
  main_loop {| book_text := text; printed := []; made := [] |} stdin.

End WithGlobals.

End Pipeline.

(* ================================================================== *)
(** * Stand-ins for the pretrained models

    Small deterministic models with the interfaces above, on which the
    pipeline can be run. *)

Module Toy.

Import Faiss Models Chunker Pipeline.

Definition ends_sentence (c : ascii) : bool :=
  let n := nat_of_ascii c in (n =? 46) || (n =? 33) || (n =? 63).

(** Sentences end at a full stop, an exclamation mark or a question
    mark; white space before a sentence is dropped. *)
Fixpoint sentences_from (cur : string) (s : string) : list string :=
  match s with
  | EmptyString => match cur with EmptyString => [] | _ => [cur] end
  | String c s' =>
      match cur with
      | EmptyString =>
          if isspace c then sentences_from EmptyString s'
          else if ends_sentence c
               then String c EmptyString :: sentences_from EmptyString s'
               else sentences_from (String c EmptyString) s'
      | _ =>
          if ends_sentence c
          then (cur ++ String c EmptyString)%string
               :: sentences_from EmptyString s'
          else sentences_from (cur ++ String c EmptyString) s'
      end
  end.

Definition sent_tokenize (text : string) : list string :=
  sentences_from EmptyString text.

Definition codes (s : string) : list Z :=
  map (fun c => Z.of_nat (nat_of_ascii c)) (list_ascii_of_string s).

Definition text_of (ids : list Z) : string :=
  string_of_list_ascii (map (fun i => ascii_of_nat (Z.to_nat i)) ids).

(** Ids are character codes; 0 pads, 1 ends a sequence. *)
Definition tokenizer : Tokenizer := {|
  encode_batch := fun text_list => Ok (map codes text_list);
  encode := fun text => Ok (codes text ++ [1%Z]);
  all_special_ids := [0%Z; 1%Z];
  render := text_of
|}.

(** The only hidden state of a text: its length and the sum of its
    codes. *)
Definition retrieval_model : Encoder := fun inputs =>
  Ok {| last_hidden_state :=
          Some {| hidden_size := 2;
                  items :=
                    map (fun ids =>
                           [[inject_Z (Z.of_nat (List.length ids));
                             inject_Z (fold_right Z.add 0%Z ids)]])
                        inputs |};
        pooler_output := None |}.

(** The generator repeats its prompt after a start token. *)
Definition generation_model : Seq2Seq := {|
  generate := fun inputs => Ok [0%Z :: inputs]
|}.

(** The nearest float32 number to a rational, ties going to the even
    significand of 24 bits; exponents are not bounded. *)
Definition round_f32 (x : Q) : Q :=
  let n := Qnum x in
  let dn := Zpos (Qden x) in
  if (n =? 0)%Z then 0%Q
  else
    let a := Z.abs n in
    let e0 := (Z.log2 a - Z.log2 dn - 23)%Z in
    let num := fun e => (if 0 <=? e then a else a * 2 ^ (- e))%Z in
    let den := fun e => (if 0 <=? e then dn * 2 ^ e else dn)%Z in
    let e := (if num e0 <? 2 ^ 23 * den e0 then e0 - 1 else e0)%Z in
    let q := (num e / den e)%Z in
    let r := (num e mod den e)%Z in
    let m := (if 2 * r <? den e then q
              else if den e <? 2 * r then q + 1
              else if Z.even q then q else q + 1)%Z in
    let v := if (0 <=? e)%Z then inject_Z (m * 2 ^ e)
             else Qmake m (Z.to_pos (2 ^ (- e))) in
    Qred (if (n <? 0)%Z then Qopp v else v).

(** The distance routine, one coordinate after the other, every
    difference, product and sum rounded to float32. *)
Definition float32_L2sqr : kernel := fun x y =>
  fold_left
    (fun res p =>
       let tmp := round_f32 (fst p - snd p) in
       round_f32 (res + round_f32 (tmp * tmp)))
    (combine x y) 0%Q.

Definition chunk_text := Chunker.chunk_text sent_tokenize.

Definition answer_question :=
  Pipeline.answer_question sent_tokenize float32_L2sqr retrieval_model tokenizer
                           generation_model tokenizer.

Definition main :=
  Pipeline.main sent_tokenize float32_L2sqr retrieval_model tokenizer
                generation_model tokenizer.

(** An index over the chunks of a text, when it can be built. *)
Definition index_of (chunks : list string) : result IndexFlatL2 :=
  match outcome (build_faiss_index float32_L2sqr chunks retrieval_model
                                   tokenizer) with
  | Ok (index, _) => Ok index
  | Err e => Err e
  end.

Definition story : string :=
  "Elias found a manuscript. It spoke of a compass! Did he leave? He did.".

(** The story in chunks of five words or more, with its index. *)
Definition story_chunks : list string :=
  ["Elias found a manuscript. It spoke of a compass!"%string;
   "Did he leave? He did."%string].

Definition story_embeddings : ndarray :=
  {| shape1 := 2; rows := [[48#1; 4363#1]; [21#1; 1718#1]]%Q |}.

Definition story_index : IndexFlatL2 :=
  {| d := 2; xb := [[48#1; 4363#1]; [21#1; 1718#1]]%Q;
     fvec_L2sqr := float32_L2sqr |}.

Definition story_query : string := "He did it".

Definition story_query_embedding : ndarray :=
  {| shape1 := 2; rows := [[9#1; 763#1]]%Q |}.

(** A book of one chunk, with its index. *)
Definition lone_chunks : list string := ["Alpha beta."%string].

Definition lone_index : IndexFlatL2 :=
  {| d := 2; xb := [[11#1; 976#1]]%Q; fvec_L2sqr := float32_L2sqr |}.

Definition lone_query : string := "Alpha?".

Definition lone_query_embedding : ndarray :=
  {| shape1 := 2; rows := [[6#1; 549#1]]%Q |}.

(** An encoder under which two chunks are at float32 distances that tie
    although their exact distances differ: a text of one character is at
    the origin, a longer one at its length less two and 4097. *)
Definition tie_model : Encoder := fun inputs =>
  Ok {| last_hidden_state :=
          Some {| hidden_size := 2;
                  items :=
                    map (fun ids : list Z =>
                           if (List.length ids <=? 1)%nat
                           then [[0#1; 0#1]%Q]
                           else [[inject_Z (Z.of_nat (List.length ids) - 2);
                                  4097#1]%Q])
                        inputs |};
        pooler_output := None |}.

Definition tie_text : string := "ab. a.".

Definition tie_chunks : list string := ["ab."%string; "a."%string].

Definition tie_index : IndexFlatL2 :=
  {| d := 2; xb := [[1#1; 4097#1]; [0#1; 4097#1]]%Q;
     fvec_L2sqr := float32_L2sqr |}.

Definition tie_query : string := "x".

End Toy.

(* ================================================================== *)
(** * Facts about the Python built-ins *)

Module PyFacts.

Lemma split_from_space (cur a b : string) :
  List.length (split_from cur (a ++ String " " b))
  = (List.length (split_from cur a) + List.length (split b))%nat.
Proof.
  revert cur.
  induction a as [|c a IH]; intros cur; simpl.
  - destruct cur; reflexivity.
  - destruct (isspace c).
    + destruct cur; simpl; rewrite IH; reflexivity.
    + apply IH.
Qed.

Lemma split_space (a b : string) :
  List.length (split (a ++ String " " b))
  = (List.length (split a) + List.length (split b))%nat.
Proof. apply split_from_space. Qed.

Lemma join_cons2 (sep x y : string) (rest : list string) :
  join sep (x :: y :: rest) = (x ++ sep ++ join sep (y :: rest))%string.
Proof. reflexivity. Qed.

Lemma append_assoc (a b c : string) :
  ((a ++ b) ++ c)%string = (a ++ (b ++ c))%string.
Proof.
  induction a as [|ch a IH]; simpl; [reflexivity | now rewrite IH].
Qed.

Lemma join_app (sep : string) (l1 l2 : list string) :
  l1 <> [] -> l2 <> [] ->
  join sep (l1 ++ l2) = (join sep l1 ++ sep ++ join sep l2)%string.
Proof.
  intros H1 H2.
  induction l1 as [|x l1 IH]; [contradiction|].
  destruct l1 as [|y l1].
  - destruct l2 as [|z l2]; [contradiction | reflexivity].
  - change ((x :: y :: l1) ++ l2) with (x :: y :: (l1 ++ l2)).
    rewrite !join_cons2.
    change (y :: l1 ++ l2) with ((y :: l1) ++ l2).
    rewrite IH by discriminate.
    now rewrite !append_assoc.
Qed.

Lemma append_nonempty_l (a b : string) :
  a <> EmptyString -> (a ++ b)%string <> EmptyString.
Proof. destruct a; [contradiction | discriminate]. Qed.

Lemma join_nonempty (sep : string) (l : list string) :
  l <> [] -> Forall (fun s => s <> EmptyString) l ->
  join sep l <> EmptyString.
Proof.
  intros Hne Hall.
  destruct l as [|x [|y l]]; [contradiction | |].
  - now inversion Hall.
  - rewrite join_cons2. apply append_nonempty_l. now inversion Hall.
Qed.

Lemma getitem_In {A} (items : list A) (i : Z) (x : A) :
  getitem items i = Ok x -> In x items.
Proof.
  unfold getitem.
  destruct (_ && _); [|discriminate].
  destruct (nth_error items _) eqn:E; [|discriminate].
  intros [= <-]. eapply nth_error_In; eassumption.
Qed.

Lemma getitem_nil {A} (i : Z) : getitem (@nil A) i = Err IndexError.
Proof.
  unfold getitem. simpl.
  destruct (_ && _) eqn:E; [|reflexivity].
  destruct (Z.to_nat _); reflexivity.
Qed.

Lemma getitem_in_range {A} (items : list A) (i : nat) (dflt : A) :
  (i < List.length items)%nat ->
  getitem items (Z.of_nat i) = Ok (nth i items dflt).
Proof.
  intros Hi. unfold getitem.
  replace (Z.of_nat i <? 0)%Z with false by (symmetry; apply Z.ltb_ge; lia).
  replace ((0 <=? Z.of_nat i) && (Z.of_nat i <? Z.of_nat (List.length items)))%Z
    with true
    by (symmetry; apply andb_true_iff; split;
        [apply Z.leb_le | apply Z.ltb_lt]; lia).
  rewrite Nat2Z.id.
  now rewrite (nth_error_nth' items dflt Hi).
Qed.

Lemma for_each_In {A B} (f : A -> result B) (xs : list A) (ys : list B) :
  for_each f xs = Ok ys ->
  forall y, In y ys -> exists x, In x xs /\ f x = Ok y.
Proof.
  revert ys.
  induction xs as [|x xs IH]; simpl; intros ys H y Hy.
  - injection H as <-. contradiction.
  - destruct (f x) as [b|] eqn:Ef; [|discriminate].
    destruct (for_each f xs) as [bs|] eqn:Er; [|discriminate].
    injection H as <-.
    destruct Hy as [<-|Hy].
    + exists x. split; [now left | assumption].
    + destruct (IH bs eq_refl y Hy) as (x' & Hx' & Hfx').
      exists x'. split; [now right | assumption].
Qed.

Lemma for_each_map_on {A B C} (f : A -> result B) (h : C -> A) (g : C -> B)
      (xs : list C) :
  (forall x, In x xs -> f (h x) = Ok (g x)) ->
  for_each f (map h xs) = Ok (map g xs).
Proof.
  induction xs as [|x xs IH]; simpl; intros H; [reflexivity|].
  rewrite (H x) by now left.
  rewrite IH by (intros; apply H; now right).
  reflexivity.
Qed.

Lemma for_each_nil_source {A B} (f : A -> result B) (x : A) (xs : list A) :
  (forall a, exists e, f a = Err e) ->
  exists e, for_each f (x :: xs) = Err e.
Proof.
  intros H. simpl. destruct (H x) as [e ->]. now exists e.
Qed.

End PyFacts.

(* ================================================================== *)
(** * The chunker *)

Module ChunkerFacts.

Import Chunker PyFacts.
Local Open Scope Z_scope.

Lemma word_count_nonneg (s : string) : 0 <= word_count s.
Proof. unfold word_count. lia. Qed.

Lemma total_words_nonneg (l : list string) : 0 <= total_words l.
Proof.
  induction l as [|s l IH]; simpl; [lia|].
  pose proof (word_count_nonneg s). lia.
Qed.

Lemma total_words_app (l1 l2 : list string) :
  total_words (l1 ++ l2) = total_words l1 + total_words l2.
Proof. induction l1 as [|s l1 IH]; simpl; lia. Qed.

Lemma total_words_snoc (l : list string) (s : string) :
  total_words (l ++ [s]) = total_words l + word_count s.
Proof. rewrite total_words_app. simpl. lia. Qed.

(** The words of a chunk are the words of its sentences. *)
Lemma word_count_join (g : list string) :
  word_count (join " " g) = total_words g.
Proof.
  induction g as [|x g IH]; [reflexivity|].
  destruct g as [|y g].
  - simpl. lia.
  - rewrite join_cons2.
    change (total_words (x :: y :: g))
      with (word_count x + total_words (y :: g)).
    rewrite <- IH. unfold word_count.
    change (" " ++ join " " (y :: g))%string
      with (String " " (join " " (y :: g))).
    rewrite split_space. lia.
Qed.

(** The loop and the grouping agree. *)
Lemma loop_groups (chunk_size : Z) (sentences : list string) (st : loop_state) :
  loop_exit (fold_left (loop_body chunk_size) sentences st)
  = (chunks st
     ++ map (join " ")
            (groups_from chunk_size sentences (current_chunk st)
                         (current_length st)))%list.
Proof.
  revert st.
  induction sentences as [|s rest IH]; intros st; simpl.
  - unfold loop_exit. destruct (current_chunk st); simpl.
    + now rewrite app_nil_r.
    + reflexivity.
  - rewrite IH. unfold loop_body. fold (word_count s).
    destruct (current_length st + word_count s >=? chunk_size); simpl.
    + now rewrite <- app_assoc.
    + reflexivity.
Qed.

Lemma groups_concat (chunk_size : Z) (sentences cur : list string) (len : Z) :
  List.concat (groups_from chunk_size sentences cur len) = (cur ++ sentences)%list.
Proof.
  revert cur len.
  induction sentences as [|s rest IH]; intros cur len; simpl.
  - destruct cur; simpl; now rewrite ?app_nil_r.
  - destruct (len + word_count s >=? chunk_size); simpl; rewrite IH.
    + now rewrite <- app_assoc.
    + now rewrite <- app_assoc.
Qed.

Lemma groups_nonempty (chunk_size : Z) (sentences cur : list string) (len : Z) :
  Forall (fun g => g <> []) (groups_from chunk_size sentences cur len).
Proof.
  revert cur len.
  induction sentences as [|s rest IH]; intros cur len; simpl.
  - destruct cur; constructor; [discriminate | constructor].
  - destruct (len + word_count s >=? chunk_size).
    + constructor; [|apply IH]. destruct cur; discriminate.
    + apply IH.
Qed.

(** Every group that is closed inside the loop has reached the size. *)
Lemma groups_closed_full (chunk_size : Z) (sentences cur : list string) :
  Forall (fun g => chunk_size <= total_words g)
         (removelast (groups_from chunk_size sentences cur (total_words cur))).
Proof.
  revert cur.
  induction sentences as [|s rest IH]; intros cur.
  - simpl. destruct cur; constructor.
  - cbn [groups_from]. cbv zeta.
    rewrite <- total_words_snoc.
    destruct (total_words (cur ++ [s]) >=? chunk_size) eqn:E.
    + specialize (IH []). simpl total_words in IH.
      destruct (groups_from chunk_size rest [] 0) as [|g gs] eqn:G.
      * constructor.
      * change (removelast ((cur ++ [s])%list :: g :: gs))
          with ((cur ++ [s])%list :: removelast (g :: gs)).
        constructor; [|exact IH].
        apply Z.geb_le in E. lia.
    + apply IH.
Qed.

(** Below the size nothing is closed inside the loop. *)
Lemma groups_single (chunk_size : Z) (sentences cur : list string) :
  (cur ++ sentences)%list <> [] ->
  total_words cur + total_words sentences < chunk_size ->
  groups_from chunk_size sentences cur (total_words cur)
  = [(cur ++ sentences)%list].
Proof.
  revert cur.
  induction sentences as [|s rest IH]; intros cur Hne Hlt.
  - rewrite app_nil_r in *. simpl. destruct cur; [contradiction | reflexivity].
  - cbn [groups_from]. cbv zeta.
    rewrite <- total_words_snoc.
    simpl total_words in Hlt.
    pose proof (total_words_nonneg rest) as Hrest.
    destruct (total_words (cur ++ [s]) >=? chunk_size) eqn:E.
    + apply Z.geb_le in E. rewrite total_words_snoc in E. lia.
    + rewrite IH.
      * now rewrite <- app_assoc.
      * rewrite <- app_assoc. simpl. destruct cur; discriminate.
      * rewrite total_words_snoc. lia.
Qed.

Lemma join_groups (gs : list (list string)) :
  Forall (fun g => g <> []) gs ->
  join " " (map (join " ") gs) = join " " (List.concat gs).
Proof.
  induction gs as [|g gs IH]; intros H; [reflexivity|].
  inversion H as [|? ? Hg Hgs]; subst.
  destruct gs as [|g' gs].
  - simpl. now rewrite app_nil_r.
  - change (map (join " ") (g :: g' :: gs))
      with (join " " g :: join " " g' :: map (join " ") gs).
    rewrite join_cons2.
    change (join " " g' :: map (join " ") gs)
      with (map (join " ") (g' :: gs)).
    rewrite (IH Hgs).
    change (List.concat (g :: g' :: gs)) with (g ++ List.concat (g' :: gs))%list.
    rewrite join_app; [reflexivity | assumption |].
    inversion Hgs; subst. simpl. destruct g'; [contradiction | discriminate].
Qed.

Lemma removelast_map {A B} (f : A -> B) (l : list A) :
  removelast (map f l) = map f (removelast l).
Proof.
  induction l as [|x l IH]; [reflexivity|].
  destruct l as [|y l]; [reflexivity|].
  change (removelast (map f (x :: y :: l)))
    with (f x :: removelast (map f (y :: l))).
  now rewrite IH.
Qed.

Section WithTokenizer.

Variable sent_tokenize : string -> list string.

Local Abbreviation chunk_text := (Chunker.chunk_text sent_tokenize).

Lemma chunk_text_groups (text : string) (chunk_size : Z) :
  chunk_text text chunk_size
  = map (join " ") (chunk_groups (sent_tokenize text) chunk_size).
Proof.
  unfold Chunker.chunk_text. cbv zeta. now rewrite loop_groups.
Qed.

End WithTokenizer.

End ChunkerFacts.


(* ================================================================== *)
(** * Properties of the chunker *)

Module ChunkerSpec.

Import Chunker PyFacts ChunkerFacts.
Local Open Scope Z_scope.

Section WithTokenizer.

Variable sent_tokenize : string -> list string.

Local Abbreviation chunk_text := (Chunker.chunk_text sent_tokenize).

(** C1.  The chunks are the sentences of the text, grouped without loss:
    each chunk is the join of one group of consecutive sentences, the
    groups put one after another are exactly the sentences of the text (so
    every sentence is in one chunk, in its place, none left out, moved or
    repeated), no group is empty, and joining the chunks with a space gives
    the same text as joining the sentences. *)
Theorem chunk_text_round_trip (text : string) (chunk_size : Z) :
  let sentences := sent_tokenize text in
  let groups := chunk_groups sentences chunk_size in
  chunk_text text chunk_size = map (join " ") groups
  /\ List.concat groups = sentences
  /\ Forall (fun g => g <> []) groups
  /\ join " " (chunk_text text chunk_size) = join " " sentences.
Proof.
  intros sentences groups.
  assert (Hc : List.concat groups = sentences)
    by (unfold groups, chunk_groups; now rewrite groups_concat).
  assert (Hn : Forall (fun g => g <> []) groups)
    by apply groups_nonempty.
  repeat split; try assumption.
  - apply chunk_text_groups.
  - rewrite chunk_text_groups. fold sentences. fold groups.
    rewrite join_groups by assumption. now rewrite Hc.
Qed.

(** C7.  A text without sentences gives no chunk; when no sentence is the
    empty string, no chunk is the empty string; and a text that has
    sentences and fewer words in all than [chunk_size] gives one chunk, the
    join of all its sentences. *)
Theorem chunk_text_edge_cases (text : string) (chunk_size : Z) :
  (sent_tokenize text = [] -> chunk_text text chunk_size = [])
  /\ (Forall (fun s => s <> EmptyString) (sent_tokenize text) ->
      Forall (fun p => p <> EmptyString) (chunk_text text chunk_size))
  /\ (sent_tokenize text <> [] ->
      total_words (sent_tokenize text) < chunk_size ->
      chunk_text text chunk_size = [join " " (sent_tokenize text)]).
Proof.
  repeat split.
  - intros H. unfold Chunker.chunk_text. now rewrite H.
  - intros Hs.
    rewrite chunk_text_groups. apply Forall_map.
    apply Forall_forall. intros g Hin.
    apply join_nonempty.
    + exact (proj1 (Forall_forall _ _)
                   (groups_nonempty chunk_size (sent_tokenize text) [] 0)
                   g Hin).
    + apply Forall_forall. intros s Hsg.
      apply (proj1 (Forall_forall _ _) Hs).
      change (sent_tokenize text) with ([] ++ sent_tokenize text)%list.
      rewrite <- (groups_concat chunk_size (sent_tokenize text) [] 0).
      apply in_concat. exists g. now split.
  - intros Hne Hlt.
    rewrite chunk_text_groups. unfold chunk_groups.
    change 0 with (total_words []).
    rewrite groups_single; [reflexivity | exact Hne |].
    simpl total_words. lia.
Qed.

(** C10.  Every chunk but the last has at least [chunk_size] words, counted
    on the chunk itself as [len(chunk.split())]; this count is the sum of
    the word counts of the sentences of the chunk. *)
Theorem chunk_text_lower_bound (text : string) (chunk_size : Z) :
  Forall (fun p => chunk_size <= word_count p)
         (removelast (chunk_text text chunk_size))
  /\ Forall (fun g => word_count (join " " g) = total_words g)
            (chunk_groups (sent_tokenize text) chunk_size).
Proof.
  split.
  - rewrite chunk_text_groups, removelast_map. apply Forall_map.
    pose proof (groups_closed_full chunk_size (sent_tokenize text) []) as H.
    simpl total_words in H.
    eapply Forall_impl; [|exact H].
    intros g Hg. cbv beta. now rewrite word_count_join.
  - apply Forall_forall. intros g _. apply word_count_join.
Qed.

End WithTokenizer.

(** On the story, with the stand-in sentence splitter. *)
Lemma chunk_text_edge_cases_witness :
  Toy.chunk_text "" 200 = []
  /\ Forall (fun p => p <> EmptyString) (Toy.chunk_text Toy.story 200)
  /\ Toy.chunk_text Toy.story 200 = [join " " (Toy.sent_tokenize Toy.story)].
Proof.
  split; [|split].
  - apply (chunk_text_edge_cases Toy.sent_tokenize "" 200). reflexivity.
  - apply (chunk_text_edge_cases Toy.sent_tokenize Toy.story 200).
    vm_compute. repeat constructor; discriminate.
  - apply (chunk_text_edge_cases Toy.sent_tokenize Toy.story 200).
    + vm_compute. discriminate.
    + vm_compute. reflexivity.
Defined.

Example chunk_text_story_5 :
  Toy.chunk_text Toy.story 5
  = ["Elias found a manuscript. It spoke of a compass!"%string;
     "Did he leave? He did."%string].
Proof. reflexivity. Qed.

End ChunkerSpec.


(* ================================================================== *)
(** * Facts about the flat index *)

Module FaissFacts.

Import Faiss.

Lemma insert_perm (h : Z * Q) (l : list (Z * Q)) :
  Permutation (insert h l) (h :: l).
Proof.
  induction l as [|x l IH]; simpl; [apply Permutation_refl|].
  destruct (Qle_bool (snd h) (snd x)); [apply Permutation_refl|].
  eapply perm_trans; [apply perm_skip, IH | apply perm_swap].
Qed.

Lemma by_distance_perm (l : list (Z * Q)) : Permutation (by_distance l) l.
Proof.
  induction l as [|h l IH]; simpl; [constructor|].
  eapply perm_trans; [apply insert_perm | now apply perm_skip].
Qed.

Lemma insert_sorted (h : Z * Q) (l : list (Z * Q)) :
  StronglySorted closer l -> StronglySorted closer (insert h l).
Proof.
  induction l as [|x l IH]; intros Hs; simpl.
  - constructor; constructor.
  - inversion Hs as [|? ? Hl Hx]; subst.
    destruct (Qle_bool (snd h) (snd x)) eqn:E.
    + apply Qle_bool_iff in E.
      constructor; [assumption|].
      constructor; [exact E|].
      eapply Forall_impl; [|exact Hx].
      intros y Hy. unfold closer in *. eapply Qle_trans; eassumption.
    + assert (Hxh : closer x h).
      { unfold closer. apply Qlt_le_weak, Qnot_le_lt.
        intros Hle. apply Qle_bool_iff in Hle. congruence. }
      constructor; [now apply IH|].
      apply Forall_forall. intros y Hy.
      apply (Permutation_in _ (insert_perm h l)) in Hy.
      destruct Hy as [<-|Hy]; [exact Hxh|].
      now apply (proj1 (Forall_forall _ _) Hx).
Qed.

Lemma by_distance_sorted (l : list (Z * Q)) :
  StronglySorted closer (by_distance l).
Proof.
  induction l as [|h l IH]; simpl; [constructor | now apply insert_sorted].
Qed.

Lemma sorted_firstn {A} (R : A -> A -> Prop) (n : nat) (l : list A) :
  StronglySorted R l -> StronglySorted R (firstn n l).
Proof.
  revert n. induction l as [|x l IH]; intros n Hs.
  - rewrite firstn_nil. constructor.
  - destruct n as [|n]; [constructor|].
    inversion Hs as [|? ? Hl Hx]; subst. simpl.
    constructor; [now apply IH|].
    apply Forall_forall. intros y Hy.
    apply (proj1 (Forall_forall _ _) Hx).
    apply (In_nth _ _ x) in Hy. destruct Hy as (i & Hi & <-).
    rewrite length_firstn in Hi.
    rewrite nth_firstn.
    replace (i <? n)%nat with true by (symmetry; apply Nat.ltb_lt; lia).
    apply nth_In. lia.
Qed.

Lemma nodup_firstn {A} (n : nat) (l : list A) :
  NoDup l -> NoDup (firstn n l).
Proof.
  intros H. rewrite <- (firstn_skipn n l) in H.
  eapply NoDup_app_remove_r; eassumption.
Qed.

Lemma firstn_incl_list {A} (n : nat) (l : list A) (x : A) :
  In x (firstn n l) -> In x l.
Proof.
  intros H. rewrite <- (firstn_skipn n l). apply in_or_app. now left.
Qed.

(** The candidates are the stored vectors, each once, under its position. *)
Lemma combine_seq {A} (dflt : A) (l : list A) (s : nat) :
  combine (seq s (List.length l)) l
  = map (fun i => (i, nth (i - s) l dflt)) (seq s (List.length l)).
Proof.
  revert s. induction l as [|x l IH]; intros s; [reflexivity|].
  simpl. rewrite Nat.sub_diag. f_equal.
  rewrite IH. apply map_ext_in. intros i Hi. apply in_seq in Hi.
  destruct (i - s)%nat as [|j] eqn:E; [lia|].
  f_equal. f_equal. lia.
Qed.

Lemma scored_eq (index : IndexFlatL2) (q : vec) :
  scored index q
  = map (fun i => (Z.of_nat i, fvec_L2sqr index q (nth i (xb index) [])))
        (seq 0 (ntotal index)).
Proof.
  unfold scored, ntotal. rewrite (combine_seq ([] : vec) (xb index) 0), map_map.
  apply map_ext. intros i. simpl. now rewrite Nat.sub_0_r.
Qed.

Lemma scored_length (index : IndexFlatL2) (q : vec) :
  List.length (scored index q) = ntotal index.
Proof. rewrite scored_eq. now rewrite length_map, length_seq. Qed.

Lemma scored_labels_nodup (index : IndexFlatL2) (q : vec) :
  NoDup (map fst (scored index q)).
Proof.
  rewrite scored_eq, map_map. simpl.
  apply Injective_map_NoDup; [|apply seq_NoDup].
  intros a b. apply Nat2Z.inj.
Qed.

Lemma scored_real (index : IndexFlatL2) (q : vec) (p : Z * Q) :
  In p (scored index q) ->
  exists i : nat,
    (i < ntotal index)%nat
    /\ fst p = Z.of_nat i
    /\ snd p = fvec_L2sqr index q (nth i (xb index) []).
Proof.
  rewrite scored_eq. intros H. apply in_map_iff in H.
  destruct H as (i & <- & Hi). apply in_seq in Hi.
  exists i. repeat split. lia.
Qed.

Lemma best_length (index : IndexFlatL2) (k : Z) (q : vec) :
  List.length (best index k q) = Nat.min (Z.to_nat k) (ntotal index).
Proof.
  unfold best. rewrite length_firstn.
  rewrite (Permutation_length (by_distance_perm _)).
  now rewrite scored_length.
Qed.

Lemma best_sorted (index : IndexFlatL2) (k : Z) (q : vec) :
  StronglySorted closer (best index k q).
Proof. apply sorted_firstn, by_distance_sorted. Qed.

Lemma best_labels_nodup (index : IndexFlatL2) (k : Z) (q : vec) :
  NoDup (map fst (best index k q)).
Proof.
  unfold best. rewrite <- firstn_map. apply nodup_firstn.
  eapply Permutation_NoDup; [|apply (scored_labels_nodup index q)].
  apply Permutation_map, Permutation_sym, by_distance_perm.
Qed.

Lemma best_real (index : IndexFlatL2) (k : Z) (q : vec) (p : Z * Q) :
  In p (best index k q) ->
  exists i : nat,
    (i < ntotal index)%nat
    /\ fst p = Z.of_nat i
    /\ snd p = fvec_L2sqr index q (nth i (xb index) []).
Proof.
  intros H. apply firstn_incl_list in H.
  apply (Permutation_in _ (by_distance_perm _)) in H.
  now apply scored_real.
Qed.

Lemma search_one_eq (index : IndexFlatL2) (k : Z) (q : vec) :
  search_one index k q
  = map (fun p => (fst p, Some (snd p))) (best index k q)
    ++ repeat missing (Z.to_nat k - Nat.min (Z.to_nat k) (ntotal index)).
Proof. unfold search_one. cbv zeta. now rewrite best_length. Qed.

Lemma search_one_length (index : IndexFlatL2) (k : Z) (q : vec) :
  List.length (search_one index k q) = Z.to_nat k.
Proof.
  rewrite search_one_eq, length_app, length_map, repeat_length, best_length.
  lia.
Qed.

Lemma sorted_app {A} (R : A -> A -> Prop) (l1 l2 : list A) :
  StronglySorted R l1 -> StronglySorted R l2 ->
  (forall x y, In x l1 -> In y l2 -> R x y) ->
  StronglySorted R (l1 ++ l2).
Proof.
  intros H1 H2 H12.
  induction l1 as [|x l1 IH]; [exact H2|].
  inversion H1 as [|? ? Hl Hx]; subst. simpl.
  constructor.
  - apply IH; [assumption|]. intros a b Ha Hb. apply H12; [now right | assumption].
  - apply Forall_forall. intros y Hy. apply in_app_or in Hy.
    destruct Hy as [Hy|Hy].
    + now apply (proj1 (Forall_forall _ _) Hx).
    + apply H12; [now left | assumption].
Qed.

Lemma sorted_map {A B} (R : A -> A -> Prop) (S : B -> B -> Prop)
      (f : A -> B) (l : list A) :
  (forall x y, R x y -> S (f x) (f y)) ->
  StronglySorted R l -> StronglySorted S (map f l).
Proof.
  intros Hf. induction 1 as [|x l Hl IH Hx]; simpl; constructor.
  - assumption.
  - apply Forall_map. eapply Forall_impl; [|exact Hx]. intros y. apply Hf.
Qed.

Lemma sorted_repeat {A} (R : A -> A -> Prop) (x : A) (n : nat) :
  R x x -> StronglySorted R (repeat x n).
Proof.
  intros Hx. induction n as [|n IH]; simpl; constructor; [assumption|].
  apply Forall_forall. intros y Hy. apply repeat_spec in Hy. now subst.
Qed.

Lemma search_one_sorted (index : IndexFlatL2) (k : Z) (q : vec) :
  StronglySorted dist_le (map snd (search_one index k q)).
Proof.
  rewrite search_one_eq, map_app. apply sorted_app.
  - rewrite map_map. simpl.
    apply (sorted_map closer); [|apply best_sorted].
    intros x y H. exact H.
  - rewrite map_repeat. now apply sorted_repeat.
  - intros x y _ Hy. rewrite map_repeat in Hy. apply repeat_spec in Hy.
    subst y. destruct x; exact I.
Qed.

Lemma search_rows (index : IndexFlatL2) (x : ndarray) (k : Z) :
  (1 <= k)%Z -> shape1 x = d index ->
  search index x k
  = Ok (map (map snd) (map (search_one index k) (rows x)),
        map (map fst) (map (search_one index k) (rows x))).
Proof.
  intros Hk Hd. unfold search.
  rewrite Hd, Nat.eqb_refl. simpl.
  replace (k <=? 0)%Z with false by (symmetry; apply Z.leb_gt; lia).
  reflexivity.
Qed.

(** Whenever a search succeeds, every row of labels has [k] entries, and
    [k] is positive. *)
Lemma search_label_rows (index : IndexFlatL2) (x : ndarray) (k : Z)
      (distances : list (list (option Q))) (labels : list (list Z)) :
  search index x k = Ok (distances, labels) ->
  (1 <= k)%Z
  /\ Forall (fun row => List.length row = Z.to_nat k) labels.
Proof.
  unfold search.
  destruct (negb _); [discriminate|].
  destruct (k <=? 0)%Z eqn:Ek; [discriminate|].
  intros [= _ <-]. apply Z.leb_gt in Ek.
  split; [lia|].
  rewrite map_map. apply Forall_map.
  apply Forall_forall. intros q _.
  now rewrite length_map, search_one_length.
Qed.

End FaissFacts.


(* ================================================================== *)
(** * Facts about the functions of the notebook *)

Module PipelineFacts.

Import Faiss Models Chunker Pipeline PyFacts FaissFacts.

Lemma outcome_bind {A B} (m : M A) (f : A -> M B) :
  outcome (bind m f)
  = match outcome m with
    | Ok a => outcome (f a)
    | Err e => Err e
    end.
Proof.
  destruct m as [l [a|e]]; simpl; [|reflexivity].
  unfold outcome. destruct (f a); reflexivity.
Qed.

Lemma calls_bind {A B} (m : M A) (f : A -> M B) :
  calls (bind m f)
  = calls m ++ match outcome m with
               | Ok a => calls (f a)
               | Err _ => []
               end.
Proof.
  destruct m as [l [a|e]]; simpl.
  - unfold calls. destruct (f a); reflexivity.
  - now rewrite app_nil_r.
Qed.

Lemma calls_lift {A} (r : result A) : calls (lift r) = [].
Proof. reflexivity. Qed.

Lemma outcome_lift {A} (r : result A) : outcome (lift r) = r.
Proof. reflexivity. Qed.

(** Push [calls] and [outcome] through the binds. *)
Ltac run :=
  rewrite ?outcome_bind, ?calls_bind, ?calls_lift, ?outcome_lift; simpl.

(** ** [encode_text] *)

(** The encoder is run once the tokenizer has returned, and not
    otherwise. *)
Lemma encode_text_calls (text_list : list string) (model : Encoder)
      (tokenizer : Tokenizer) :
  calls (encode_text text_list model tokenizer)
  = match encode_batch tokenizer text_list with
    | Ok _ => [Encode text_list]
    | Err _ => []
    end.
Proof.
  unfold encode_text. run.
  destruct (encode_batch tokenizer text_list) as [inputs|]; [|reflexivity].
  run. destruct (model inputs); reflexivity.
Qed.

Lemma encode_text_calls_ok (text_list : list string) (model : Encoder)
      (tokenizer : Tokenizer) (embeddings : ndarray) :
  outcome (encode_text text_list model tokenizer) = Ok embeddings ->
  calls (encode_text text_list model tokenizer) = [Encode text_list].
Proof.
  rewrite encode_text_calls. unfold encode_text. run.
  destruct (encode_batch tokenizer text_list); [reflexivity | discriminate].
Qed.

Lemma encode_text_calls_prefix (text_list : list string) (model : Encoder)
      (tokenizer : Tokenizer) :
  calls (encode_text text_list model tokenizer) = [Encode text_list]
  \/ (calls (encode_text text_list model tokenizer) = []
      /\ exists e, outcome (encode_text text_list model tokenizer) = Err e).
Proof.
  rewrite encode_text_calls. unfold encode_text. run.
  destruct (encode_batch tokenizer text_list) as [inputs|e];
    [now left | right; split; [reflexivity | now exists e]].
Qed.

(** ** [build_faiss_index] *)

Lemma build_faiss_index_calls (faiss : kernel) (chunks : list string)
      (model : Encoder) (tokenizer : Tokenizer) :
  calls (build_faiss_index faiss chunks model tokenizer)
  = calls (encode_text chunks model tokenizer).
Proof.
  unfold build_faiss_index. run.
  destruct (outcome (encode_text chunks model tokenizer)) as [emb|];
    [|now rewrite app_nil_r].
  run. destruct (add _ emb); now rewrite app_nil_r.
Qed.

Lemma build_faiss_index_ok (faiss : kernel) (chunks : list string)
      (model : Encoder) (tokenizer : Tokenizer) (index : IndexFlatL2)
      (embeddings : ndarray) :
  outcome (build_faiss_index faiss chunks model tokenizer)
  = Ok (index, embeddings) ->
  outcome (encode_text chunks model tokenizer) = Ok embeddings
  /\ d index = shape1 embeddings
  /\ xb index = rows embeddings
  /\ fvec_L2sqr index = faiss.
Proof.
  unfold build_faiss_index. run.
  destruct (outcome (encode_text chunks model tokenizer)) as [emb|];
    [|discriminate].
  run. unfold add, new. simpl. rewrite Nat.eqb_refl. simpl.
  intros [= <- <-]. auto.
Qed.

(** ** [retrieve_text] *)

Lemma retrieve_text_calls (query : string) (chunks : list string)
      (index : IndexFlatL2) (model : Encoder) (tokenizer : Tokenizer)
      (top_k : Z) :
  calls (retrieve_text query chunks index model tokenizer top_k)
  = calls (encode_text [query] model tokenizer).
Proof.
  unfold retrieve_text. run.
  destruct (outcome (encode_text [query] model tokenizer)) as [qa|];
    [|now rewrite app_nil_r].
  run. destruct (search index qa top_k) as [[D I]|]; [|now rewrite app_nil_r].
  run. destruct (getitem I 0); now rewrite app_nil_r.
Qed.

Lemma retrieve_text_outcome (query : string) (chunks : list string)
      (index : IndexFlatL2) (model : Encoder) (tokenizer : Tokenizer)
      (top_k : Z) :
  outcome (retrieve_text query chunks index model tokenizer top_k)
  = match outcome (encode_text [query] model tokenizer) with
    | Err e => Err e
    | Ok query_embedding =>
        match search index query_embedding top_k with
        | Err e => Err e
        | Ok (_, indices) =>
            match getitem indices 0 with
            | Err e => Err e
            | Ok row => for_each (fun i => getitem chunks i) row
            end
        end
    end.
Proof.
  unfold retrieve_text. run.
  destruct (outcome (encode_text [query] model tokenizer)) as [qa|];
    [|reflexivity].
  run. destruct (search index qa top_k) as [[D I]|]; [|reflexivity].
  run. destruct (getitem I 0); reflexivity.
Qed.

(** Whatever is retrieved is one of the chunks. *)
Lemma retrieve_text_members (query : string) (chunks : list string)
      (index : IndexFlatL2) (model : Encoder) (tokenizer : Tokenizer)
      (top_k : Z) (relevant_text : list string) :
  outcome (retrieve_text query chunks index model tokenizer top_k)
  = Ok relevant_text ->
  Forall (fun p => In p chunks) relevant_text.
Proof.
  rewrite retrieve_text_outcome.
  destruct (outcome (encode_text _ _ _)) as [qa|]; [|discriminate].
  destruct (search index qa top_k) as [[D I]|]; [|discriminate].
  destruct (getitem I 0) as [row|]; [|discriminate].
  intros H. apply Forall_forall. intros p Hp.
  destruct (for_each_In _ _ _ H p Hp) as (i & _ & Hi).
  eapply getitem_In; eassumption.
Qed.

(** Without chunks nothing can be retrieved: every label, whatever it is,
    is out of range. *)
Lemma retrieve_text_no_chunks (query : string) (index : IndexFlatL2)
      (model : Encoder) (tokenizer : Tokenizer) (top_k : Z) :
  exists e,
    outcome (retrieve_text query [] index model tokenizer top_k) = Err e.
Proof.
  rewrite retrieve_text_outcome.
  destruct (outcome (encode_text _ _ _)) as [qa|e]; [|now exists e].
  destruct (search index qa top_k) as [[D I]|e] eqn:Es; [|now exists e].
  destruct (search_label_rows _ _ _ _ _ Es) as [Hk Hrows].
  destruct (getitem I 0) as [row|e] eqn:Er; [|now exists e].
  apply getitem_In in Er.
  apply (proj1 (Forall_forall _ _) Hrows) in Er.
  destruct row as [|i row]; [simpl in Er; lia|].
  apply for_each_nil_source. intros a.
  exists IndexError. apply getitem_nil.
Qed.

Lemma nodup_map_in {A B} (f : A -> B) (l : list A) :
  (forall x y, In x l -> In y l -> f x = f y -> x = y) ->
  NoDup l -> NoDup (map f l).
Proof.
  intros Hinj. induction 1 as [|x l Hx Hl IH]; simpl; constructor.
  - intros Hin. apply in_map_iff in Hin. destruct Hin as (y & Hy & Hyl).
    apply Hx. rewrite (Hinj x y); auto; [now left | now right].
  - apply IH. intros a b Ha Hb. apply Hinj; now right.
Qed.

Lemma sorted_map_in {A B} (R : A -> A -> Prop) (S : B -> B -> Prop)
      (f : A -> B) (l : list A) :
  (forall x y, In x l -> In y l -> R x y -> S (f x) (f y)) ->
  StronglySorted R l -> StronglySorted S (map f l).
Proof.
  intros Hf Hs. induction Hs as [|x l Hl IH Hx]; simpl; constructor.
  - apply IH. intros a b Ha Hb. apply Hf; now right.
  - apply Forall_map. apply Forall_forall. intros y Hy.
    apply Hf; [now left | now right |].
    now apply (proj1 (Forall_forall _ _) Hx).
Qed.

(** The positions that a search for at most as many results as there are
    stored vectors yields: as many as asked for, all different, all in
    range, nearest first; the chunks at these positions are what
    [retrieve_text] returns. *)
Lemma retrieve_text_positions (query : string) (chunks : list string)
      (index : IndexFlatL2) (model : Encoder) (tokenizer : Tokenizer)
      (top_k : Z) (query_embedding : ndarray) (qe : vec) :
  outcome (encode_text [query] model tokenizer) = Ok query_embedding ->
  rows query_embedding = [qe] ->
  shape1 query_embedding = d index ->
  ntotal index = List.length chunks ->
  (1 <= top_k <= Z.of_nat (List.length chunks))%Z ->
  exists positions : list nat,
    outcome (retrieve_text query chunks index model tokenizer top_k)
    = Ok (map (fun i => nth i chunks EmptyString) positions)
    /\ List.length positions = Z.to_nat top_k
    /\ NoDup positions
    /\ Forall (fun i => (i < List.length chunks)%nat) positions
    /\ StronglySorted
         (fun i j => (fvec_L2sqr index qe (nth i (xb index) [])
                      <= fvec_L2sqr index qe (nth j (xb index) []))%Q)
         positions.
Proof.
  intros Hq Hrows Hdim Hn Hk.
  set (found := best index top_k qe).
  assert (Hreal : forall p, In p found ->
            exists i, (i < List.length chunks)%nat /\ fst p = Z.of_nat i
                      /\ snd p = fvec_L2sqr index qe (nth i (xb index) [])).
  { intros p Hp. destruct (best_real _ _ _ _ Hp) as (i & Hi & Hf & Hs).
    exists i. rewrite <- Hn. auto. }
  assert (Hlen : List.length found = Z.to_nat top_k).
  { unfold found. rewrite best_length, Hn. lia. }
  exists (map (fun p => Z.to_nat (fst p)) found).
  repeat split.
  - rewrite retrieve_text_outcome, Hq.
    rewrite search_rows by (lia || assumption).
    rewrite Hrows. simpl map.
    change (getitem [map fst (search_one index top_k qe)] 0)
      with (Ok (map fst (search_one index top_k qe))).
    rewrite search_one_eq.
    replace (Z.to_nat top_k - Nat.min (Z.to_nat top_k) (ntotal index))%nat
      with 0%nat by lia.
    simpl repeat. rewrite app_nil_r, !map_map. simpl.
    fold found. apply for_each_map_on.
    intros p Hp. destruct (Hreal p Hp) as (i & Hi & Hf & _).
    rewrite Hf, Nat2Z.id. now apply getitem_in_range.
  - now rewrite length_map.
  - apply nodup_map_in.
    + intros x y Hx Hy Hxy.
      destruct (Hreal x Hx) as (i & _ & Hi & Hsi).
      destruct (Hreal y Hy) as (j & _ & Hj & Hsj).
      rewrite Hi, Hj, !Nat2Z.id in Hxy. subst j.
      destruct x, y; simpl in *; congruence.
    + assert (Hnd : NoDup (map fst found)) by apply best_labels_nodup.
      exact (NoDup_map_inv fst found Hnd).
  - apply Forall_map, Forall_forall. intros p Hp.
    destruct (Hreal p Hp) as (i & Hi & Hf & _).
    now rewrite Hf, Nat2Z.id.
  - apply (sorted_map_in closer); [|apply best_sorted].
    intros x y Hx Hy Hxy.
    destruct (Hreal x Hx) as (i & _ & Hi & Hsi).
    destruct (Hreal y Hy) as (j & _ & Hj & Hsj).
    rewrite Hi, Hj, !Nat2Z.id, <- Hsi, <- Hsj. exact Hxy.
Qed.

(** ** [generate_answer] *)

Lemma generate_answer_calls (context question : string) (model : Seq2Seq)
      (tokenizer : Tokenizer) :
  calls (generate_answer context question model tokenizer)
  = match encode tokenizer (input_text context question) with
    | Ok _ => [Generate (input_text context question)]
    | Err _ => []
    end.
Proof.
  unfold generate_answer. run.
  destruct (encode tokenizer _) as [inputs|]; [|reflexivity].
  run. destruct (generate model inputs) as [outputs|]; [|reflexivity].
  run. destruct (getitem outputs 0); reflexivity.
Qed.

Lemma generate_answer_outcome (context question : string) (model : Seq2Seq)
      (tokenizer : Tokenizer) :
  outcome (generate_answer context question model tokenizer)
  = match encode tokenizer (input_text context question) with
    | Err e => Err e
    | Ok inputs =>
        match generate model inputs with
        | Err e => Err e
        | Ok outputs =>
            match getitem outputs 0 with
            | Err e => Err e
            | Ok first_output => Ok (decode tokenizer first_output true)
            end
        end
    end.
Proof.
  unfold generate_answer. run.
  destruct (encode tokenizer _) as [inputs|]; [|reflexivity].
  run. destruct (generate model inputs) as [outputs|]; [|reflexivity].
  run. destruct (getitem outputs 0); reflexivity.
Qed.

(** ** What has run when a step returns, and when it has run nothing *)

Lemma build_faiss_index_calls_ok (faiss : kernel) (chunks : list string)
      (model : Encoder) (tokenizer : Tokenizer)
      (built : IndexFlatL2 * ndarray) :
  outcome (build_faiss_index faiss chunks model tokenizer) = Ok built ->
  calls (build_faiss_index faiss chunks model tokenizer) = [Encode chunks].
Proof.
  destruct built as [index embeddings]. intros H.
  destruct (build_faiss_index_ok _ _ _ _ _ _ H) as (He & _).
  rewrite build_faiss_index_calls. eapply encode_text_calls_ok. exact He.
Qed.

Lemma build_faiss_index_calls_prefix (faiss : kernel) (chunks : list string)
      (model : Encoder) (tokenizer : Tokenizer) :
  calls (build_faiss_index faiss chunks model tokenizer) = [Encode chunks]
  \/ (calls (build_faiss_index faiss chunks model tokenizer) = []
      /\ exists e,
           outcome (build_faiss_index faiss chunks model tokenizer) = Err e).
Proof.
  rewrite build_faiss_index_calls.
  destruct (encode_text_calls_prefix chunks model tokenizer)
    as [H|[H [e He]]]; [now left|].
  right. split; [exact H|]. exists e.
  unfold build_faiss_index. rewrite outcome_bind. now rewrite He.
Qed.

Lemma retrieve_text_calls_ok (query : string) (chunks : list string)
      (index : IndexFlatL2) (model : Encoder) (tokenizer : Tokenizer)
      (top_k : Z) (relevant_text : list string) :
  outcome (retrieve_text query chunks index model tokenizer top_k)
  = Ok relevant_text ->
  calls (retrieve_text query chunks index model tokenizer top_k)
  = [Encode [query]].
Proof.
  rewrite retrieve_text_calls, retrieve_text_outcome.
  destruct (outcome (encode_text [query] model tokenizer)) as [qa|] eqn:E;
    [|discriminate].
  intros _. eapply encode_text_calls_ok. exact E.
Qed.

Lemma retrieve_text_calls_prefix (query : string) (chunks : list string)
      (index : IndexFlatL2) (model : Encoder) (tokenizer : Tokenizer)
      (top_k : Z) :
  calls (retrieve_text query chunks index model tokenizer top_k)
  = [Encode [query]]
  \/ (calls (retrieve_text query chunks index model tokenizer top_k) = []
      /\ exists e,
           outcome (retrieve_text query chunks index model tokenizer top_k)
           = Err e).
Proof.
  rewrite retrieve_text_calls.
  destruct (encode_text_calls_prefix [query] model tokenizer)
    as [H|[H [e He]]]; [now left|].
  right. split; [exact H|]. exists e.
  rewrite retrieve_text_outcome. now rewrite He.
Qed.

Lemma generate_answer_calls_ok (context question answer : string)
      (model : Seq2Seq) (tokenizer : Tokenizer) :
  outcome (generate_answer context question model tokenizer) = Ok answer ->
  calls (generate_answer context question model tokenizer)
  = [Generate (input_text context question)].
Proof.
  rewrite generate_answer_calls, generate_answer_outcome.
  destruct (encode tokenizer _); [reflexivity | discriminate].
Qed.

Lemma generate_answer_calls_prefix (context question : string)
      (model : Seq2Seq) (tokenizer : Tokenizer) :
  calls (generate_answer context question model tokenizer)
  = [Generate (input_text context question)]
  \/ (calls (generate_answer context question model tokenizer) = []
      /\ exists e,
           outcome (generate_answer context question model tokenizer)
           = Err e).
Proof.
  rewrite generate_answer_calls, generate_answer_outcome.
  destruct (encode tokenizer _) as [inputs|e]; [now left|].
  right. split; [reflexivity | now exists e].
Qed.

End PipelineFacts.


(* ================================================================== *)
(** * Properties of the index search *)

Module IndexSpec.

Import Faiss Models Chunker Pipeline PyFacts FaissFacts PipelineFacts.

(** C3, as the index behaves.  A search for [k >= 1] results yields exactly
    [k] pairs of a label and a distance, in ascending order of distance,
    whatever the number [N] of stored vectors: the first [min(k, N)] pairs
    name different stored vectors, each with the distance to the query
    that the index computes for it, and the other [k - min(k, N)] pairs
    are the filler with label [-1]. *)
Theorem search_returns_k_results
        (index : IndexFlatL2) (x : ndarray) (q : vec) (k : Z) :
  rows x = [q] ->
  shape1 x = d index ->
  (1 <= k)%Z ->
  exists hits : list hit,
    search index x k = Ok ([map snd hits], [map fst hits])
    /\ List.length hits = Z.to_nat k
    /\ StronglySorted dist_le (map snd hits)
    /\ Forall (is_neighbour index q)
              (firstn (Nat.min (Z.to_nat k) (ntotal index)) hits)
    /\ NoDup (map fst (firstn (Nat.min (Z.to_nat k) (ntotal index)) hits))
    /\ skipn (Nat.min (Z.to_nat k) (ntotal index)) hits
       = repeat missing (Z.to_nat k - Nat.min (Z.to_nat k) (ntotal index)).
Proof.
  intros Hrows Hdim Hk.
  exists (search_one index k q).
  assert (Hfirst :
            firstn (Nat.min (Z.to_nat k) (ntotal index)) (search_one index k q)
            = map (fun p => (fst p, Some (snd p))) (best index k q)).
  { rewrite search_one_eq.
    rewrite firstn_app, length_map, best_length, Nat.sub_diag.
    simpl firstn at 2. rewrite app_nil_r.
    apply firstn_all2. rewrite length_map, best_length. lia. }
  repeat split.
  - rewrite search_rows by assumption. now rewrite Hrows.
  - apply search_one_length.
  - apply search_one_sorted.
  - rewrite Hfirst. apply Forall_map, Forall_forall.
    intros p Hp. destruct (best_real _ _ _ _ Hp) as (i & Hi & Hf & Hs).
    exists i. simpl. repeat split; [assumption | assumption | now rewrite Hs].
  - rewrite Hfirst, map_map. simpl. apply best_labels_nodup.
  - rewrite search_one_eq.
    rewrite skipn_app, length_map, best_length, Nat.sub_diag.
    rewrite skipn_all2 by (rewrite length_map, best_length; lia).
    reflexivity.
Qed.

(** An index over the two chunks of the story, asked for five results. *)
Lemma search_returns_k_results_witness :
  exists hits : list hit,
    search Toy.story_index Toy.story_query_embedding 5
    = Ok ([map snd hits], [map fst hits])
    /\ List.length hits = 5%nat
    /\ StronglySorted dist_le (map snd hits)
    /\ Forall (is_neighbour Toy.story_index [9#1; 763#1]%Q) (firstn 2 hits)
    /\ NoDup (map fst (firstn 2 hits))
    /\ skipn 2 hits = repeat missing 3.
Proof.
  apply (search_returns_k_results
           Toy.story_index Toy.story_query_embedding [9#1; 763#1]%Q 5).
  - reflexivity.
  - reflexivity.
  - lia.
Defined.

(** C3 fails as stated: an index of one vector searched for three results
    yields three pairs, not [min(3, 1) = 1]. *)
Lemma search_length_is_not_min :
  Toy.index_of Toy.lone_chunks = Ok Toy.lone_index
  /\ ntotal Toy.lone_index = 1%nat
  /\ search Toy.lone_index Toy.lone_query_embedding 3
     = Ok ([[Some (182354#1)%Q; None; None]], [[0; -1; -1]%Z])
  /\ List.length [0; -1; -1]%Z <> Nat.min 3 (ntotal Toy.lone_index).
Proof.
  repeat split; try reflexivity.
  vm_compute. discriminate.
Qed.

End IndexSpec.


(* ================================================================== *)
(** * Properties of retrieval *)

Module RetrieverSpec.

Import Faiss Models Chunker Pipeline PyFacts FaissFacts PipelineFacts.

(** C2, as the code behaves.  [retrieve_text] hands [top_k] to the index as
    it is.  Over an index that holds one vector per chunk, and for
    [1 <= top_k <= len(chunks)], it returns without an exception exactly
    [top_k] chunks, taken at positions of [chunks] that are in range and
    all different. *)
Theorem retrieve_text_in_range
        (query : string) (chunks : list string) (index : IndexFlatL2)
        (model : Encoder) (tokenizer : Tokenizer) (top_k : Z)
        (query_embedding : ndarray) (qe : vec) :
  outcome (encode_text [query] model tokenizer) = Ok query_embedding ->
  rows query_embedding = [qe] ->
  shape1 query_embedding = d index ->
  ntotal index = List.length chunks ->
  (1 <= top_k <= Z.of_nat (List.length chunks))%Z ->
  exists positions : list nat,
    outcome (retrieve_text query chunks index model tokenizer top_k)
    = Ok (map (fun i => nth i chunks EmptyString) positions)
    /\ List.length positions = Z.to_nat top_k
    /\ NoDup positions
    /\ Forall (fun i => (i < List.length chunks)%nat) positions.
Proof.
  intros Hq Hrows Hdim Hn Hk.
  destruct (retrieve_text_positions query chunks index model tokenizer top_k
              query_embedding qe Hq Hrows Hdim Hn Hk)
    as (positions & Hout & Hlen & Hnd & Hin & _).
  exists positions. auto.
Qed.

Lemma retrieve_text_in_range_witness :
  exists positions : list nat,
    outcome (retrieve_text Toy.story_query Toy.story_chunks Toy.story_index
                           Toy.retrieval_model Toy.tokenizer 2)
    = Ok (map (fun i => nth i Toy.story_chunks EmptyString) positions)
    /\ List.length positions = 2%nat
    /\ NoDup positions
    /\ Forall (fun i => (i < 2)%nat) positions.
Proof.
  apply (retrieve_text_in_range
           Toy.story_query Toy.story_chunks Toy.story_index
           Toy.retrieval_model Toy.tokenizer 2
           Toy.story_query_embedding [9#1; 763#1]%Q).
  - reflexivity.
  - reflexivity.
  - reflexivity.
  - reflexivity.
  - simpl. lia.
Defined.

(** C2 fails as stated: with one chunk and [top_k = 3] nothing is clamped;
    three chunks come back for the one there is, the labels [-1] of the
    missing results being read as the last position of [chunks]. *)
Lemma retrieve_text_does_not_clamp :
  Toy.index_of Toy.lone_chunks = Ok Toy.lone_index
  /\ outcome (retrieve_text Toy.lone_query Toy.lone_chunks Toy.lone_index
                            Toy.retrieval_model Toy.tokenizer 3)
     = Ok ["Alpha beta."%string; "Alpha beta."%string; "Alpha beta."%string]
  /\ List.length ["Alpha beta."%string; "Alpha beta."%string; "Alpha beta."%string]
     <> List.length Toy.lone_chunks
  /\ ~ NoDup ["Alpha beta."%string; "Alpha beta."%string; "Alpha beta."%string].
Proof.
  split; [reflexivity|]. split; [reflexivity|]. split.
  - simpl. discriminate.
  - intros H. inversion H as [|? ? Hnotin _]; subst.
    apply Hnotin. now left.
Qed.

(** C4, as the code behaves.  Over the index that [build_faiss_index] makes
    of the chunks, the encoder giving one vector per chunk, and for
    [1 <= top_k <= len(chunks)], [retrieve_text] returns exactly [top_k]
    chunks, taken at positions of [chunks] that are all different, every
    one of them an element of [chunks], in order of non-decreasing distance
    between the embedding of the query and the embedding of the chunk as
    the index computes it, in float32 arithmetic. *)
Theorem retrieve_text_top_k
        (faiss : kernel) (query : string) (chunks : list string)
        (model : Encoder) (tokenizer : Tokenizer) (top_k : Z)
        (index : IndexFlatL2) (embeddings query_embedding : ndarray)
        (qe : vec) :
  outcome (build_faiss_index faiss chunks model tokenizer)
  = Ok (index, embeddings) ->
  List.length (rows embeddings) = List.length chunks ->
  outcome (encode_text [query] model tokenizer) = Ok query_embedding ->
  rows query_embedding = [qe] ->
  shape1 query_embedding = shape1 embeddings ->
  (1 <= top_k <= Z.of_nat (List.length chunks))%Z ->
  exists positions : list nat,
    let relevant_text := map (fun i => nth i chunks EmptyString) positions in
    outcome (retrieve_text query chunks index model tokenizer top_k)
    = Ok relevant_text
    /\ List.length relevant_text = Z.to_nat top_k
    /\ NoDup positions
    /\ Forall (fun i => (i < List.length chunks)%nat) positions
    /\ Forall (fun p => In p chunks) relevant_text
    /\ StronglySorted
         (fun i j => (faiss qe (nth i (rows embeddings) [])
                      <= faiss qe (nth j (rows embeddings) []))%Q)
         positions.
Proof.
  intros Hb Hemb Hq Hrows Hdim Hk.
  destruct (build_faiss_index_ok _ _ _ _ _ _ Hb) as (_ & Hd & Hxb & Hf).
  assert (Hn : ntotal index = List.length chunks)
    by (unfold ntotal; now rewrite Hxb).
  rewrite <- Hd in Hdim.
  destruct (retrieve_text_positions query chunks index model tokenizer top_k
              query_embedding qe Hq Hrows Hdim Hn Hk)
    as (positions & Hout & Hlen & Hnd & Hin & Hsorted).
  exists positions. cbv zeta. repeat split.
  - exact Hout.
  - now rewrite length_map.
  - exact Hnd.
  - exact Hin.
  - eapply retrieve_text_members. exact Hout.
  - rewrite <- Hxb, <- Hf. exact Hsorted.
Qed.

Lemma retrieve_text_top_k_witness :
  exists positions : list nat,
    let relevant_text :=
      map (fun i => nth i Toy.story_chunks EmptyString) positions in
    outcome (retrieve_text Toy.story_query Toy.story_chunks Toy.story_index
                           Toy.retrieval_model Toy.tokenizer 2)
    = Ok relevant_text
    /\ List.length relevant_text = 2%nat
    /\ NoDup positions
    /\ Forall (fun i => (i < 2)%nat) positions
    /\ Forall (fun p => In p Toy.story_chunks) relevant_text
    /\ StronglySorted
         (fun i j =>
            (Toy.float32_L2sqr [9#1; 763#1]
                               (nth i (rows Toy.story_embeddings) [])
             <= Toy.float32_L2sqr [9#1; 763#1]
                                  (nth j (rows Toy.story_embeddings) []))%Q)
         positions.
Proof.
  apply (retrieve_text_top_k
           Toy.float32_L2sqr Toy.story_query Toy.story_chunks
           Toy.retrieval_model Toy.tokenizer
           2 Toy.story_index Toy.story_embeddings Toy.story_query_embedding
           [9#1; 763#1]%Q).
  - reflexivity.
  - reflexivity.
  - reflexivity.
  - reflexivity.
  - reflexivity.
  - simpl. lia.
Defined.

(** C4 fails as stated, twice over.  With [top_k = 0], which is at most
    the number of chunks, the search of the index raises [AssertionError]
    where the claim has an empty result.  And the order is that of the
    distances computed in float32, not of the squared Euclidean distances
    themselves: of the two chunks of [ab. a.], whose embeddings are at
    [16785410] and [16785409] from the query, the farther comes first,
    both distances rounding to [16785408]. *)
Lemma retrieve_text_exact_order_fails :
  Toy.chunk_text Toy.tie_text 1 = Toy.tie_chunks
  /\ outcome (build_faiss_index Toy.float32_L2sqr Toy.tie_chunks
                                Toy.tie_model Toy.tokenizer)
     = Ok (Toy.tie_index,
           {| shape1 := 2; rows := [[1#1; 4097#1]; [0#1; 4097#1]]%Q |})
  /\ outcome (encode_text [Toy.tie_query] Toy.tie_model Toy.tokenizer)
     = Ok {| shape1 := 2; rows := [[0#1; 0#1]]%Q |}
  /\ outcome (retrieve_text Toy.tie_query Toy.tie_chunks Toy.tie_index
                            Toy.tie_model Toy.tokenizer 0)
     = Err AssertionError
  /\ outcome (retrieve_text Toy.tie_query Toy.tie_chunks Toy.tie_index
                            Toy.tie_model Toy.tokenizer 2)
     = Ok ["ab."%string; "a."%string]
  /\ ~ (l2sqr [0#1; 0#1] [1#1; 4097#1] <= l2sqr [0#1; 0#1] [0#1; 4097#1])%Q.
Proof.
  split; [reflexivity|]. split; [reflexivity|]. split; [reflexivity|].
  split; [reflexivity|]. split; [vm_compute; reflexivity|].
  vm_compute. intros H. now apply H.
Qed.

Example retrieve_text_story :
  outcome (retrieve_text Toy.story_query Toy.story_chunks Toy.story_index
                         Toy.retrieval_model Toy.tokenizer 2)
  = Ok ["Did he leave? He did."%string;
        "Elias found a manuscript. It spoke of a compass!"%string].
Proof. reflexivity. Qed.

End RetrieverSpec.

(* ================================================================== *)
(** * Properties of generation *)

Module GeneratorSpec.

Import Faiss Models Chunker Pipeline PyFacts PipelineFacts.

(** C8.  The prompt of [generate_answer] is [question: ] followed by the
    question, [ context: ] and the context; it is the one prompt that the
    generator is run on, which happens once the prompt has been tokenized;
    and an answer that is returned is the first output sequence decoded
    with the special ids left out. *)
Theorem generate_answer_prompt
        (context question : string) (model : Seq2Seq) (tokenizer : Tokenizer) :
  input_text context question
  = ("question: " ++ question ++ " context: " ++ context)%string
  /\ calls (generate_answer context question model tokenizer)
     = match encode tokenizer
                    ("question: " ++ question ++ " context: " ++ context)%string
       with
       | Ok _ =>
           [Generate ("question: " ++ question ++ " context: " ++ context)%string]
       | Err _ => []
       end
  /\ (forall answer,
        outcome (generate_answer context question model tokenizer) = Ok answer ->
        exists inputs outputs first_output,
          encode tokenizer
                 ("question: " ++ question ++ " context: " ++ context)%string
          = Ok inputs
          /\ generate model inputs = Ok outputs
          /\ getitem outputs 0 = Ok first_output
          /\ answer = decode tokenizer first_output true
          /\ answer
             = render tokenizer
                      (filter (fun id => negb (is_special tokenizer id))
                              first_output)).
Proof.
  split; [reflexivity|]. split; [apply generate_answer_calls|].
  intros answer. rewrite generate_answer_outcome. unfold input_text.
  destruct (encode tokenizer _) as [inputs|]; [|discriminate].
  destruct (generate model inputs) as [outputs|] eqn:Eg; [|discriminate].
  destruct (getitem outputs 0) as [first_output|] eqn:Ef; [|discriminate].
  intros [= <-]. exists inputs, outputs, first_output.
  repeat split; assumption.
Qed.

Lemma generate_answer_prompt_witness :
  exists inputs outputs first_output,
    encode Toy.tokenizer "question: q context: c" = Ok inputs
    /\ generate Toy.generation_model inputs = Ok outputs
    /\ getitem outputs 0 = Ok first_output
    /\ "question: q context: c"%string = decode Toy.tokenizer first_output true
    /\ "question: q context: c"%string
       = render Toy.tokenizer
                (filter (fun id => negb (is_special Toy.tokenizer id))
                        first_output).
Proof.
  apply (proj2 (proj2 (generate_answer_prompt
                         "c" "q" Toy.generation_model Toy.tokenizer))).
  reflexivity.
Defined.

End GeneratorSpec.


(* ================================================================== *)
(** * Properties of [answer_question] and of the driver *)

Module OrchestratorSpec.

Import Faiss Models Chunker Pipeline PyFacts PipelineFacts.

Section WithGlobals.

Variable sent_tokenize : string -> list string.
Variable faiss : kernel.
Variable retrieval_model : Encoder.
Variable tokenizer : Tokenizer.
Variable generation_model : Seq2Seq.
Variable generation_tokenizer : Tokenizer.

Local Abbreviation chunk_text := (Chunker.chunk_text sent_tokenize).
Local Abbreviation answer_question :=
  (Pipeline.answer_question sent_tokenize faiss retrieval_model tokenizer
                            generation_model generation_tokenizer).
Local Abbreviation loop_iteration :=
  (Pipeline.loop_iteration sent_tokenize faiss retrieval_model tokenizer
                           generation_model generation_tokenizer).
Local Abbreviation main_loop :=
  (Pipeline.main_loop sent_tokenize faiss retrieval_model tokenizer
                      generation_model generation_tokenizer).
Local Abbreviation main :=
  (Pipeline.main sent_tokenize faiss retrieval_model tokenizer
                 generation_model generation_tokenizer).

(** Whatever models a call of [answer_question] runs, the first is the
    encoder, on the chunks of its own book text. *)
Lemma answer_question_first_call (book_text question : string) (c : call)
      (rest : list call) :
  calls (answer_question book_text question) = c :: rest ->
  c = Encode (chunk_text book_text default_chunk_size).
Proof.
  unfold Pipeline.answer_question. cbv zeta.
  rewrite calls_bind.
  destruct (build_faiss_index_calls_prefix
              faiss (chunk_text book_text default_chunk_size)
              retrieval_model tokenizer) as [H|[H [e He]]]; rewrite H.
  - now intros [= <- _].
  - rewrite He. discriminate.
Qed.

(** What a call that returns an answer has done. *)
Lemma answer_question_ok (book_text question answer : string) :
  outcome (answer_question book_text question) = Ok answer ->
  exists index embeddings relevant_text,
    let chunks := chunk_text book_text default_chunk_size in
    outcome (build_faiss_index faiss chunks retrieval_model tokenizer)
    = Ok (index, embeddings)
    /\ outcome (retrieve_text question chunks index retrieval_model tokenizer
                              default_top_k)
       = Ok relevant_text
    /\ outcome (generate_answer (join " " relevant_text) question
                                generation_model generation_tokenizer)
       = Ok answer
    /\ calls (answer_question book_text question)
       = [Encode chunks; Encode [question];
          Generate (input_text (join " " relevant_text) question)].
Proof.
  unfold Pipeline.answer_question. cbv zeta.
  rewrite calls_bind, outcome_bind.
  destruct (outcome (build_faiss_index _ _ _ _))
    as [[index embeddings]|] eqn:Eb; [|discriminate].
  rewrite (build_faiss_index_calls_ok _ _ _ _ _ Eb).
  rewrite calls_bind, outcome_bind.
  destruct (outcome (retrieve_text _ _ _ _ _ _)) as [relevant_text|] eqn:Er;
    [|discriminate].
  rewrite (retrieve_text_calls_ok _ _ _ _ _ _ _ Er).
  intros H. rewrite (generate_answer_calls_ok _ _ _ _ _ H).
  exists index, embeddings, relevant_text. cbv zeta.
  repeat split; assumption || reflexivity.
Qed.

(** C5, as the code behaves.  A text without sentences has no chunks, and
    [answer_question] on it raises an exception: it returns no answer and
    the generator is not called. *)
Theorem answer_question_no_sentences (book_text question : string) :
  sent_tokenize book_text = [] ->
  chunk_text book_text default_chunk_size = []
  /\ (exists e, outcome (answer_question book_text question) = Err e)
  /\ Forall (fun c => is_generate c = false)
            (calls (answer_question book_text question)).
Proof.
  intros Hs.
  assert (Hc : chunk_text book_text default_chunk_size = [])
    by (unfold Chunker.chunk_text; now rewrite Hs).
  split; [exact Hc|].
  assert (Henc : forall l m t,
             Forall (fun c => is_generate c = false)
                    (calls (encode_text l m t))).
  { intros l m t. rewrite encode_text_calls.
    destruct (encode_batch t l); repeat constructor. }
  unfold Pipeline.answer_question. cbv zeta. rewrite Hc.
  rewrite calls_bind, outcome_bind, build_faiss_index_calls.
  destruct (outcome (build_faiss_index _ _ _ _)) as [[index embeddings]|e].
  - rewrite calls_bind, outcome_bind, retrieve_text_calls.
    destruct (retrieve_text_no_chunks question index retrieval_model
                                      tokenizer default_top_k) as [e He].
    rewrite He. split; [now exists e|].
    rewrite app_nil_r. apply Forall_app. split; apply Henc.
  - split; [now exists e|]. rewrite app_nil_r. apply Henc.
Qed.

(** C6, as the code behaves.  [answer_question] is given the book text with
    the question; there is no step that loads a book beforehand and no
    state without one.  A call that returns an answer has itself run the
    encoder on the chunks of its book text, then on the question, and then
    the generator; and whatever models a call runs, the first run is the
    encoding of these chunks. *)
Theorem answer_question_loads_first (book_text question : string) :
  (forall answer,
      outcome (answer_question book_text question) = Ok answer ->
      exists relevant_text,
        calls (answer_question book_text question)
        = [Encode (chunk_text book_text default_chunk_size);
           Encode [question];
           Generate (input_text (join " " relevant_text) question)])
  /\ (forall c rest,
        calls (answer_question book_text question) = c :: rest ->
        c = Encode (chunk_text book_text default_chunk_size)).
Proof.
  split.
  - intros answer H.
    destruct (answer_question_ok _ _ _ H)
      as (_ & _ & relevant_text & _ & _ & _ & Hcalls).
    now exists relevant_text.
  - apply answer_question_first_call.
Qed.

Lemma loop_iteration_book_text (s s' : session) (question : string) :
  loop_iteration s question = Running s' ->
  book_text s' = book_text s.
Proof.
  unfold Pipeline.loop_iteration.
  destruct (String.eqb _ _); [discriminate|].
  destruct (Pipeline.answer_question _ _ _ _ _ _ _ _) as [l [a|e]];
    [|discriminate].
  now intros [= <-].
Qed.

Lemma loop_iteration_session (s : session) (question : string) :
  book_text (session_of (loop_iteration s question)) = book_text s.
Proof.
  unfold Pipeline.loop_iteration.
  destruct (String.eqb _ _); [reflexivity|].
  destruct (Pipeline.answer_question _ _ _ _ _ _ _ _) as [l [a|e]]; reflexivity.
Qed.

Lemma main_loop_book_text (stdin : list string) (s : session) :
  book_text (session_of (main_loop s stdin)) = book_text s.
Proof.
  revert s. induction stdin as [|question rest IH]; intros s; [reflexivity|].
  simpl.
  destruct (loop_iteration s question) as [s'|s'|s' e] eqn:E.
  - rewrite IH. now apply (loop_iteration_book_text s s' question).
  - rewrite <- (loop_iteration_session s question). now rewrite E.
  - rewrite <- (loop_iteration_session s question). now rewrite E.
Qed.

(** Every line that the loop prints is an answer to one of the questions
    read, computed on the book text of the session. *)
Lemma main_loop_printed (stdin : list string) (s : session) (line : string) :
  In line (printed (session_of (main_loop s stdin))) ->
  In line (printed s)
  \/ exists question answer,
       In question stdin
       /\ outcome (answer_question (book_text s) question) = Ok answer
       /\ line = ("Answer: " ++ answer)%string.
Proof.
  revert s. induction stdin as [|question rest IH]; intros s; [now left|].
  simpl. unfold Pipeline.loop_iteration.
  destruct (String.eqb _ _); [now left|].
  destruct (Pipeline.answer_question _ _ _ _ _ _ _ _) as [l [a|e]] eqn:E;
    [|now left].
  intros H. apply IH in H. simpl in H.
  destruct H as [H|(q & a' & Hq & Ha & Hl)].
  - apply in_app_or in H. destruct H as [H|[<-|[]]]; [now left|].
    right. exists question, a. repeat split; [now left|].
    unfold outcome. now rewrite E.
  - right. exists q, a'. repeat split; [now right | assumption | assumption].
Qed.

(** C9.  An answer is made from chunks of the book text given to that very
    call: what is retrieved are elements of the chunks of that text, and
    the calls made are the encoding of these chunks, the encoding of the
    question and the generation from the retrieved chunks; nothing of a
    text given to an earlier call takes part.  The driver keeps its book
    text through every iteration, whatever is asked and however often, and
    every line it prints is an answer computed on that book text. *)
Theorem answer_question_current_document :
  (forall book_text question answer,
      outcome (answer_question book_text question) = Ok answer ->
      exists relevant_text,
        Forall (fun p => In p (chunk_text book_text default_chunk_size))
               relevant_text
        /\ calls (answer_question book_text question)
           = [Encode (chunk_text book_text default_chunk_size);
              Encode [question];
              Generate (input_text (join " " relevant_text) question)])
  /\ (forall s question s',
        loop_iteration s question = Running s' ->
        book_text s' = book_text s)
  /\ (forall text stdin,
        book_text (session_of (main text stdin)) = text)
  /\ (forall text stdin line,
        In line (printed (session_of (main text stdin))) ->
        exists question answer,
          In question stdin
          /\ outcome (answer_question text question) = Ok answer
          /\ line = ("Answer: " ++ answer)%string).
Proof.
  split; [|split; [|split]].
  - intros book_text question answer H.
    destruct (answer_question_ok _ _ _ H)
      as (index & embeddings & relevant_text & _ & Hr & _ & Hcalls).
    exists relevant_text. split; [|exact Hcalls].
    eapply retrieve_text_members. exact Hr.
  - intros s question s'. apply loop_iteration_book_text.
  - intros text stdin. unfold Pipeline.main.
    now rewrite main_loop_book_text.
  - intros text stdin line H. unfold Pipeline.main in H.
    apply main_loop_printed in H. simpl in H.
    destruct H as [[]|H]. exact H.
Qed.

End WithGlobals.

Lemma answer_question_no_sentences_witness :
  Toy.chunk_text "   " default_chunk_size = []
  /\ (exists e, outcome (Toy.answer_question "   " "What?") = Err e)
  /\ Forall (fun c => is_generate c = false)
            (calls (Toy.answer_question "   " "What?")).
Proof.
  apply (answer_question_no_sentences
           Toy.sent_tokenize Toy.float32_L2sqr Toy.retrieval_model
           Toy.tokenizer Toy.generation_model Toy.tokenizer "   " "What?").
  reflexivity.
Defined.

(** C5 fails as stated: on a text of spaces there are no chunks and
    [answer_question] raises [IndexError] once both encodings are done;
    the generator has not been called. *)
Lemma answer_question_blank_text_raises :
  Toy.chunk_text "   " default_chunk_size = []
  /\ Toy.answer_question "   " "What?"
     = ([Encode []; Encode ["What?"%string]], Err IndexError).
Proof. split; reflexivity. Qed.

(** C6 fails as stated: the first call of [answer_question], nothing having
    been loaded before it, encodes, generates and returns an answer. *)
Lemma answer_question_first_call_answers :
  Toy.answer_question "Alpha beta." Toy.lone_query
  = ([Encode ["Alpha beta."%string]; Encode ["Alpha?"%string];
      Generate "question: Alpha? context: Alpha beta. Alpha beta. Alpha beta."],
     Ok "question: Alpha? context: Alpha beta. Alpha beta. Alpha beta."%string)
  /\ ~ fails_without_work (Toy.answer_question "Alpha beta." Toy.lone_query).
Proof.
  split; [reflexivity|].
  intros [_ H]. discriminate H.
Qed.

Lemma answer_question_loads_first_witness :
  (exists relevant_text,
      calls (Toy.answer_question "Alpha beta." "Alpha?")
      = [Encode (Toy.chunk_text "Alpha beta." default_chunk_size);
         Encode ["Alpha?"%string];
         Generate (input_text (join " " relevant_text) "Alpha?")])
  /\ Encode ["Alpha beta."%string]
     = Encode (Toy.chunk_text "Alpha beta." default_chunk_size).
Proof.
  pose proof (answer_question_loads_first
                Toy.sent_tokenize Toy.float32_L2sqr Toy.retrieval_model
                Toy.tokenizer Toy.generation_model Toy.tokenizer
                "Alpha beta." "Alpha?") as (Ha & Hc).
  split.
  - apply (Ha "question: Alpha? context: Alpha beta. Alpha beta. Alpha beta."%string).
    reflexivity.
  - apply (Hc (Encode ["Alpha beta."%string])
              [Encode ["Alpha?"%string];
               Generate
                 "question: Alpha? context: Alpha beta. Alpha beta. Alpha beta."]).
    reflexivity.
Defined.

Lemma answer_question_current_document_witness :
  (exists relevant_text,
      Forall (fun p => In p (Toy.chunk_text "Alpha beta." default_chunk_size))
             relevant_text
      /\ calls (Toy.answer_question "Alpha beta." "Alpha?")
         = [Encode (Toy.chunk_text "Alpha beta." default_chunk_size);
            Encode ["Alpha?"%string];
            Generate (input_text (join " " relevant_text) "Alpha?")])
  /\ book_text
       {| book_text := "Alpha beta.";
          printed :=
            ["Answer: question: Alpha? context: Alpha beta. Alpha beta. Alpha beta."%string];
          made := calls (Toy.answer_question "Alpha beta." "Alpha?") |}
     = "Alpha beta."%string
  /\ (exists question answer,
        In question ["Alpha?"%string; "EXIT"%string]
        /\ outcome (Toy.answer_question "Alpha beta." question) = Ok answer
        /\ "Answer: question: Alpha? context: Alpha beta. Alpha beta. Alpha beta."%string
           = ("Answer: " ++ answer)%string).
Proof.
  pose proof (answer_question_current_document
                Toy.sent_tokenize Toy.float32_L2sqr Toy.retrieval_model
                Toy.tokenizer Toy.generation_model Toy.tokenizer) as (Ha & Hs & _ & Hp).
  split; [|split].
  - apply (Ha "Alpha beta."%string "Alpha?"%string
              "question: Alpha? context: Alpha beta. Alpha beta. Alpha beta."%string).
    reflexivity.
  - apply (Hs {| book_text := "Alpha beta."; printed := []; made := [] |}
              "Alpha?"%string).
    reflexivity.
  - apply (Hp "Alpha beta."%string ["Alpha?"%string; "EXIT"%string]).
    left. reflexivity.
Defined.

Example main_story :
  printed (session_of (Toy.main "Alpha beta." ["Alpha?"%string; "EXIT"%string]))
  = ["Answer: question: Alpha? context: Alpha beta. Alpha beta. Alpha beta."%string].
Proof. reflexivity. Qed.

End OrchestratorSpec.


(* ================================================================== *)
(** * Further properties of the chunker *)

Module ChunkerMore.

Import Chunker PyFacts ChunkerFacts.
Local Open Scope Z_scope.

Lemma groups_singletons (chunk_size : Z) (sentences : list string) :
  Forall (fun s => chunk_size <= word_count s) sentences ->
  groups_from chunk_size sentences [] 0 = map (fun s => [s]) sentences.
Proof.
  induction 1 as [|s rest Hs _ IH]; [reflexivity|].
  cbn [groups_from]. cbv zeta.
  replace (0 + word_count s >=? chunk_size) with true
    by (symmetry; apply Z.geb_le; lia).
  simpl. now rewrite IH.
Qed.

Lemma total_words_removelast (l : list string) :
  total_words (removelast l) <= total_words l.
Proof.
  induction l as [|s l IH]; [simpl; lia|].
  destruct l as [|t l].
  - simpl. pose proof (word_count_nonneg s). lia.
  - change (removelast (s :: t :: l)) with (s :: removelast (t :: l)).
    simpl total_words in *. lia.
Qed.

(** Before its last sentence was added, a group was below the size. *)
Lemma groups_overshoot (chunk_size : Z) (sentences cur : list string) :
  0 < chunk_size ->
  total_words cur < chunk_size ->
  Forall (fun g => total_words (removelast g) < chunk_size)
         (groups_from chunk_size sentences cur (total_words cur)).
Proof.
  intros Hpos. revert cur.
  induction sentences as [|s rest IH]; intros cur Hcur.
  - simpl. destruct cur as [|c cur]; constructor; [|constructor].
    pose proof (total_words_removelast (c :: cur)). lia.
  - cbn [groups_from]. cbv zeta.
    rewrite <- total_words_snoc.
    destruct (total_words (cur ++ [s]) >=? chunk_size) eqn:E.
    + constructor.
      * now rewrite removelast_last.
      * apply (IH []). simpl. lia.
    + apply IH. rewrite Z.geb_leb in E. apply Z.leb_gt in E. lia.
Qed.

Lemma total_words_split_last (g : list string) :
  g <> [] ->
  total_words g = total_words (removelast g) + word_count (last g EmptyString).
Proof.
  intros Hg.
  rewrite (app_removelast_last EmptyString Hg) at 1.
  apply total_words_snoc.
Qed.

Lemma total_words_concat (gs : list (list string)) :
  total_words (List.concat gs)
  = fold_right (fun g acc => total_words g + acc) 0 gs.
Proof.
  induction gs as [|g gs IH]; [reflexivity|].
  simpl. now rewrite total_words_app, IH.
Qed.

Lemma total_words_joined (gs : list (list string)) :
  total_words (map (join " ") gs) = total_words (List.concat gs).
Proof.
  induction gs as [|g gs IH]; [reflexivity|].
  simpl. now rewrite total_words_app, word_count_join, IH.
Qed.

Lemma full_groups_sum (chunk_size : Z) (gs : list (list string)) :
  Forall (fun g => chunk_size <= total_words g) gs ->
  Z.of_nat (List.length gs) * chunk_size
  <= fold_right (fun g acc => total_words g + acc) 0 gs.
Proof.
  induction 1 as [|g gs Hg _ IH]; [simpl; lia|].
  cbn [List.length fold_right]. lia.
Qed.

Lemma removelast_sum (gs : list (list string)) :
  fold_right (fun g acc => total_words g + acc) 0 (removelast gs)
  <= fold_right (fun g acc => total_words g + acc) 0 gs.
Proof.
  induction gs as [|g gs IH]; [simpl; lia|].
  destruct gs as [|h gs].
  - simpl. pose proof (total_words_nonneg g). lia.
  - change (removelast (g :: h :: gs)) with (g :: removelast (h :: gs)).
    cbn [fold_right] in *. lia.
Qed.

Lemma nonempty_groups_length (gs : list (list string)) :
  Forall (fun g => g <> []) gs ->
  (List.length gs <= List.length (List.concat gs))%nat.
Proof.
  induction 1 as [|g gs Hg _ IH]; [simpl; lia|].
  simpl. rewrite length_app. destruct g; [contradiction|]. simpl. lia.
Qed.

Section WithTokenizer.

Variable sent_tokenize : string -> list string.

Local Abbreviation chunk_text := (Chunker.chunk_text sent_tokenize).

(** X1.  When every sentence has at least [chunk_size] words (as all do for
    a [chunk_size] of zero or less), every sentence is a chunk of its own:
    the chunks are the sentences. *)
Theorem chunk_text_one_sentence_each (text : string) (chunk_size : Z) :
  Forall (fun s => chunk_size <= word_count s) (sent_tokenize text) ->
  chunk_text text chunk_size = sent_tokenize text.
Proof.
  intros H. rewrite chunk_text_groups. unfold chunk_groups.
  rewrite groups_singletons by assumption.
  rewrite map_map. simpl. apply map_id.
Qed.

(** X2.  For a positive [chunk_size] no chunk goes over the size by more
    than its last sentence.  The chunks of [chunk_text] are the joins of
    the groups of sentences, and in every group the sentences before the
    last have fewer than [chunk_size] words together, so that the chunk has
    fewer words than [chunk_size] plus the words of its last sentence. *)
Theorem chunk_text_overshoot (text : string) (chunk_size : Z) :
  0 < chunk_size ->
  chunk_text text chunk_size
  = map (join " ") (chunk_groups (sent_tokenize text) chunk_size)
  /\ Forall (fun g =>
               total_words (removelast g) < chunk_size
               /\ word_count (join " " g)
                  < chunk_size + word_count (last g EmptyString))
            (chunk_groups (sent_tokenize text) chunk_size).
Proof.
  intros Hpos. split; [apply chunk_text_groups|]. unfold chunk_groups.
  pose proof (groups_overshoot chunk_size (sent_tokenize text) [] Hpos) as H.
  simpl total_words in H. specialize (H Hpos).
  pose proof (groups_nonempty chunk_size (sent_tokenize text) [] 0) as Hn.
  rewrite Forall_forall in *. intros g Hg.
  split; [now apply H|].
  rewrite word_count_join, (total_words_split_last g (Hn g Hg)).
  specialize (H g Hg). lia.
Qed.

(** X3.  There are no more chunks than sentences, and the chunks before the
    last account for [chunk_size] words each: their number times
    [chunk_size] is at most the number of words of the text. *)
Theorem chunk_text_count (text : string) (chunk_size : Z) :
  (List.length (chunk_text text chunk_size)
   <= List.length (sent_tokenize text))%nat
  /\ Z.of_nat (List.length (removelast (chunk_text text chunk_size)))
     * chunk_size
     <= total_words (sent_tokenize text).
Proof.
  rewrite chunk_text_groups. unfold chunk_groups.
  pose proof (groups_concat chunk_size (sent_tokenize text) [] 0) as Hc.
  simpl in Hc.
  split.
  - rewrite length_map. rewrite <- Hc at 2.
    apply nonempty_groups_length, groups_nonempty.
  - rewrite removelast_map, length_map.
    pose proof (groups_closed_full chunk_size (sent_tokenize text) []) as Hf.
    simpl total_words in Hf.
    apply full_groups_sum in Hf.
    etransitivity; [exact Hf|].
    etransitivity; [apply removelast_sum|].
    rewrite <- total_words_concat, Hc. lia.
Qed.

(** X4.  Chunking neither loses nor adds a word: the word counts of the
    chunks add up to the word counts of the sentences. *)
Theorem chunk_text_keeps_words (text : string) (chunk_size : Z) :
  total_words (chunk_text text chunk_size)
  = total_words (sent_tokenize text).
Proof.
  rewrite chunk_text_groups, total_words_joined. unfold chunk_groups.
  now rewrite groups_concat.
Qed.

End WithTokenizer.

Lemma chunk_text_one_sentence_each_witness :
  Toy.chunk_text Toy.story 0 = Toy.sent_tokenize Toy.story.
Proof.
  apply (chunk_text_one_sentence_each Toy.sent_tokenize Toy.story 0).
  vm_compute. repeat constructor; discriminate.
Defined.

Lemma chunk_text_overshoot_witness :
  Toy.chunk_text Toy.story 5
  = map (join " ") (chunk_groups (Toy.sent_tokenize Toy.story) 5)
  /\ Forall (fun g =>
               total_words (removelast g) < 5
               /\ word_count (join " " g)
                  < 5 + word_count (last g EmptyString))
            (chunk_groups (Toy.sent_tokenize Toy.story) 5).
Proof.
  apply (chunk_text_overshoot Toy.sent_tokenize Toy.story 5). lia.
Defined.

End ChunkerMore.


(* ================================================================== *)
(** * Further properties of encoding, indexing and retrieval *)

Module RetrieverMore.

Import Faiss Models Chunker Pipeline PyFacts FaissFacts PipelineFacts.

Lemma for_each_length {A B} (f : A -> result B) (xs : list A) (ys : list B) :
  for_each f xs = Ok ys -> List.length ys = List.length xs.
Proof.
  revert ys. induction xs as [|x xs IH]; simpl; intros ys H.
  - now injection H as <-.
  - destruct (f x); [|discriminate].
    destruct (for_each f xs) as [zs|]; [|discriminate].
    injection H as <-. simpl. now rewrite (IH zs).
Qed.

Lemma for_each_app {A B} (f : A -> result B) (xs xs' : list A)
      (ys ys' : list B) :
  for_each f xs = Ok ys -> for_each f xs' = Ok ys' ->
  for_each f (xs ++ xs') = Ok (ys ++ ys').
Proof.
  revert ys. induction xs as [|x xs IH]; simpl; intros ys H H'.
  - now injection H as <-.
  - destruct (f x); [|discriminate].
    destruct (for_each f xs) as [zs|]; [|discriminate].
    injection H as <-. now rewrite (IH zs eq_refl H').
Qed.

Lemma for_each_repeat {A B} (f : A -> result B) (x : A) (y : B) (n : nat) :
  f x = Ok y -> for_each f (repeat x n) = Ok (repeat y n).
Proof.
  intros H. induction n as [|n IH]; simpl; [reflexivity|].
  now rewrite H, IH.
Qed.

Lemma for_each_first_error {A B} (f : A -> result B) (e : exn) (xs : list A) :
  (forall x e', f x = Err e' -> e' = e) ->
  Exists (fun x => f x = Err e) xs ->
  for_each f xs = Err e.
Proof.
  intros Hf. induction 1 as [x xs Hx|x xs _ IH]; simpl.
  - now rewrite Hx.
  - destruct (f x) as [y|e'] eqn:E.
    + now rewrite IH.
    + now rewrite (Hf x e' E).
Qed.

Lemma nth_error_last {A} (l : list A) (dflt : A) :
  l <> [] ->
  nth_error l (List.length l - 1) = Some (last l dflt).
Proof.
  induction l as [|x l IH]; [contradiction|]. intros _.
  destruct l as [|y l]; [reflexivity|].
  change (last (x :: y :: l) dflt) with (last (y :: l) dflt).
  rewrite <- IH by discriminate. simpl. now rewrite Nat.sub_0_r.
Qed.

(** [items[-1]] is the last item. *)
Lemma getitem_minus_one {A} (items : list A) (dflt : A) :
  items <> [] -> getitem items (-1) = Ok (last items dflt).
Proof.
  intros Hne. unfold getitem.
  assert (Hlen : (0 < List.length items)%nat)
    by (destruct items; [contradiction | simpl; lia]).
  change (-1 <? 0)%Z with true. cbv iota.
  replace ((0 <=? -1 + Z.of_nat (List.length items))
           && (-1 + Z.of_nat (List.length items)
               <? Z.of_nat (List.length items)))%Z
    with true
    by (symmetry; apply andb_true_iff; split;
        [apply Z.leb_le | apply Z.ltb_lt]; lia).
  replace (Z.to_nat (-1 + Z.of_nat (List.length items)))
    with (List.length items - 1)%nat by lia.
  now rewrite (nth_error_last items dflt Hne).
Qed.

Lemma getitem_zero {A} (items : list A) (dflt : A) :
  getitem items 0
  = match items with [] => Err IndexError | _ :: _ => Ok (nth 0 items dflt) end.
Proof. destruct items; reflexivity. Qed.

Lemma sorted_app_inv {A} (R : A -> A -> Prop) (l1 l2 : list A) :
  StronglySorted R (l1 ++ l2) ->
  forall x y, In x l1 -> In y l2 -> R x y.
Proof.
  induction l1 as [|a l1 IH]; intros Hs x y Hx Hy; [contradiction|].
  simpl in Hs. inversion Hs as [|? ? Hl Ha]; subst.
  destruct Hx as [<-|Hx].
  - apply (proj1 (Forall_forall _ _) Ha). apply in_or_app. now right.
  - now apply IH.
Qed.

Lemma map_nth_seq {A} (l : list A) (dflt : A) :
  map (fun i => nth i l dflt) (seq 0 (List.length l)) = l.
Proof.
  apply (nth_ext _ _ dflt dflt).
  - now rewrite length_map, length_seq.
  - intros n Hn. rewrite length_map, length_seq in Hn.
    rewrite (nth_indep _ _ (nth 0 l dflt))
      by now rewrite length_map, length_seq.
    change (nth 0 l dflt) with ((fun i => nth i l dflt) 0%nat).
    rewrite map_nth, seq_nth by assumption. reflexivity.
Qed.

(** ** [encode_text] *)

(** X5.  When the tokenizer and the model succeed and the output has hidden
    states, [encode_text] takes the vector at position 0 of every text,
    whatever the pooled output is: one row per text, in order, of the
    hidden size; a text without any position makes it raise
    [IndexError]. *)
Theorem encode_text_first_position
        (text_list : list string) (model : Encoder) (tokenizer : Tokenizer)
        (inputs : list (list Z)) (outputs : ModelOutput) (hidden : tensor3) :
  encode_batch tokenizer text_list = Ok inputs ->
  model inputs = Ok outputs ->
  last_hidden_state outputs = Some hidden ->
  (Forall (fun positions => positions <> []) (items hidden) ->
   outcome (encode_text text_list model tokenizer)
   = Ok {| shape1 := hidden_size hidden;
           rows := map (fun positions => nth 0 positions []) (items hidden) |})
  /\ (Exists (fun positions => positions = []) (items hidden) ->
      outcome (encode_text text_list model tokenizer) = Err IndexError).
Proof.
  intros Ht Hm Hh.
  assert (Hout : outcome (encode_text text_list model tokenizer)
                 = first_position hidden).
  { unfold encode_text. run. rewrite Ht. run. rewrite Hm. run.
    now rewrite Hh. }
  rewrite Hout. unfold first_position. split.
  - intros Hall.
    assert (E : for_each (fun positions : list vec => getitem positions 0)
                         (map (fun p => p) (items hidden))
                = Ok (map (fun p => nth 0 p []) (items hidden))).
    { apply for_each_map_on. intros positions Hin.
      rewrite (getitem_zero positions []).
      destruct positions; [|reflexivity].
      now apply (proj1 (Forall_forall _ _) Hall) in Hin. }
    rewrite map_id in E. now rewrite E.
  - intros Hex.
    rewrite (for_each_first_error _ IndexError); [reflexivity | |].
    + intros positions e'. rewrite (getitem_zero positions []).
      destruct positions; [now intros [= <-] | discriminate].
    + eapply Exists_impl; [|exact Hex].
      now intros positions ->.
Qed.

(** On the encoder of the story, and on a model that gives a text no
    position at all. *)
Lemma encode_text_first_position_witness :
  outcome (encode_text ["Alpha?"%string] Toy.retrieval_model Toy.tokenizer)
  = Ok {| shape1 := 2; rows := [[6#1; 549#1]]%Q |}
  /\ outcome
       (encode_text
          ["Alpha?"%string]
          (fun _ =>
             Ok {| last_hidden_state :=
                     Some {| hidden_size := 2; items := [[]] |};
                   pooler_output := Some {| shape1 := 2; rows := [[]] |} |})
          Toy.tokenizer)
     = Err IndexError.
Proof.
  split.
  - apply (encode_text_first_position
             ["Alpha?"%string] Toy.retrieval_model Toy.tokenizer
             [[65; 108; 112; 104; 97; 63]%Z]
             {| last_hidden_state :=
                  Some {| hidden_size := 2; items := [[[6#1; 549#1]%Q]] |};
                pooler_output := None |}
             {| hidden_size := 2; items := [[[6#1; 549#1]%Q]] |}).
    + reflexivity.
    + reflexivity.
    + reflexivity.
    + repeat constructor. discriminate.
  - apply (encode_text_first_position
             ["Alpha?"%string]
             (fun _ =>
                Ok {| last_hidden_state :=
                        Some {| hidden_size := 2; items := [[]] |};
                      pooler_output := Some {| shape1 := 2; rows := [[]] |} |})
             Toy.tokenizer
             [[65; 108; 112; 104; 97; 63]%Z]
             {| last_hidden_state :=
                  Some {| hidden_size := 2; items := [[]] |};
                pooler_output := Some {| shape1 := 2; rows := [[]] |} |}
             {| hidden_size := 2; items := [[]] |}).
    + reflexivity.
    + reflexivity.
    + reflexivity.
    + constructor. reflexivity.
Defined.

(** ** [retrieve_text] *)

(** The labels of one search, whatever [k >= 1] is: the nearest stored
    vectors first, then the label [-1] as often as results are missing. *)
Lemma search_one_labels (index : IndexFlatL2) (k : Z) (q : vec) :
  map fst (search_one index k q)
  = map fst (best index k q)
    ++ repeat (-1)%Z (Z.to_nat k - Nat.min (Z.to_nat k) (ntotal index)).
Proof.
  rewrite search_one_eq, map_app, map_map, map_repeat. reflexivity.
Qed.

(** What [retrieve_text] returns over an index that holds one vector per
    chunk, for every [top_k >= 1]: the chunks at the positions that the
    search yields, then the last chunk for every missing result.  The
    positions are as many as can be had, all different, in range, by
    non-decreasing computed distance, and no position left out has a
    smaller computed distance than one of them. *)
Lemma retrieve_text_general
      (query : string) (chunks : list string) (index : IndexFlatL2)
      (model : Encoder) (tokenizer : Tokenizer) (top_k : Z)
      (query_embedding : ndarray) (qe : vec) :
  outcome (encode_text [query] model tokenizer) = Ok query_embedding ->
  rows query_embedding = [qe] ->
  shape1 query_embedding = d index ->
  ntotal index = List.length chunks ->
  chunks <> [] ->
  (1 <= top_k)%Z ->
  exists positions : list nat,
    outcome (retrieve_text query chunks index model tokenizer top_k)
    = Ok (map (fun i => nth i chunks EmptyString) positions
          ++ repeat (last chunks EmptyString)
                    (Z.to_nat top_k - List.length positions))
    /\ List.length positions = Nat.min (Z.to_nat top_k) (List.length chunks)
    /\ NoDup positions
    /\ Forall (fun i => (i < List.length chunks)%nat) positions
    /\ StronglySorted
         (fun i j => (fvec_L2sqr index qe (nth i (xb index) [])
                      <= fvec_L2sqr index qe (nth j (xb index) []))%Q)
         positions
    /\ (forall i j,
          In i positions ->
          (j < List.length chunks)%nat ->
          ~ In j positions ->
          (fvec_L2sqr index qe (nth i (xb index) [])
           <= fvec_L2sqr index qe (nth j (xb index) []))%Q).
Proof.
  intros Hq Hrows Hdim Hn Hne Hk.
  set (found := best index top_k qe).
  assert (Hreal : forall p, In p found ->
            exists i, (i < List.length chunks)%nat /\ fst p = Z.of_nat i
                      /\ snd p = fvec_L2sqr index qe (nth i (xb index) [])).
  { intros p Hp. destruct (best_real _ _ _ _ Hp) as (i & Hi & Hf & Hs).
    exists i. rewrite <- Hn. auto. }
  assert (Hlen : List.length found
                 = Nat.min (Z.to_nat top_k) (List.length chunks)).
  { unfold found. now rewrite best_length, Hn. }
  exists (map (fun p => Z.to_nat (fst p)) found).
  rewrite length_map, Hlen.
  split; [|split; [reflexivity | split; [|split; [|split]]]].
  - rewrite retrieve_text_outcome, Hq.
    rewrite search_rows by (lia || assumption).
    rewrite Hrows. simpl map.
    change (getitem [map fst (search_one index top_k qe)] 0)
      with (Ok (map fst (search_one index top_k qe))).
    rewrite search_one_labels, Hn. fold found.
    apply for_each_app.
    + rewrite map_map. apply for_each_map_on.
      intros p Hp. destruct (Hreal p Hp) as (i & Hi & Hf & _).
      rewrite Hf, Nat2Z.id. now apply getitem_in_range.
    + apply for_each_repeat. now apply getitem_minus_one.
  - apply nodup_map_in.
    + intros x y Hx Hy Hxy.
      destruct (Hreal x Hx) as (i & _ & Hi & Hsi).
      destruct (Hreal y Hy) as (j & _ & Hj & Hsj).
      rewrite Hi, Hj, !Nat2Z.id in Hxy. subst j.
      destruct x, y; simpl in *; congruence.
    + exact (NoDup_map_inv fst found (best_labels_nodup index top_k qe)).
  - apply Forall_map, Forall_forall. intros p Hp.
    destruct (Hreal p Hp) as (i & Hi & Hf & _).
    now rewrite Hf, Nat2Z.id.
  - apply (sorted_map_in closer); [|apply best_sorted].
    intros x y Hx Hy Hxy.
    destruct (Hreal x Hx) as (i & _ & Hi & Hsi).
    destruct (Hreal y Hy) as (j & _ & Hj & Hsj).
    rewrite Hi, Hj, !Nat2Z.id, <- Hsi, <- Hsj. exact Hxy.
  - intros i j Hi Hj Hnot.
    apply in_map_iff in Hi. destruct Hi as (p & Hpi & Hp).
    destruct (Hreal p Hp) as (i' & _ & Hf & Hs).
    rewrite Hf, Nat2Z.id in Hpi. subst i'.
    set (pj := (Z.of_nat j, fvec_L2sqr index qe (nth j (xb index) []))).
    assert (Hpj : In pj (by_distance (scored index qe))).
    { apply (Permutation_in _ (Permutation_sym (by_distance_perm _))).
      rewrite scored_eq.
      apply (in_map (fun i => (Z.of_nat i,
                               fvec_L2sqr index qe (nth i (xb index) [])))).
      apply in_seq. rewrite Hn. lia. }
    rewrite <- (firstn_skipn (Z.to_nat top_k)) in Hpj.
    apply in_app_or in Hpj. destruct Hpj as [Hpj|Hpj].
    + exfalso. apply Hnot. apply in_map_iff. exists pj.
      split; [simpl; apply Nat2Z.id | exact Hpj].
    + pose proof (by_distance_sorted (scored index qe)) as Hs'.
      rewrite <- (firstn_skipn (Z.to_nat top_k)) in Hs'.
      pose proof (sorted_app_inv _ _ _ Hs' p pj Hp Hpj) as Hc.
      unfold closer in Hc. simpl in Hc. now rewrite <- Hs.
Qed.

(** X7.  Over an index that holds one vector per chunk, with at least one
    chunk, [retrieve_text] returns exactly [top_k] texts for every
    [top_k >= 1]: first the [min(top_k, len(chunks))] nearest chunks, each
    once, nearest first, and then, for every result the index could not
    give, the last chunk again.  Nearest is meant by the distance that the
    index computes: the chunks come by non-decreasing computed distance,
    and no chunk that is left out has a smaller one. *)
Theorem retrieve_text_always_top_k
        (query : string) (chunks : list string) (index : IndexFlatL2)
        (model : Encoder) (tokenizer : Tokenizer) (top_k : Z)
        (query_embedding : ndarray) (qe : vec) :
  outcome (encode_text [query] model tokenizer) = Ok query_embedding ->
  rows query_embedding = [qe] ->
  shape1 query_embedding = d index ->
  ntotal index = List.length chunks ->
  chunks <> [] ->
  (1 <= top_k)%Z ->
  exists positions : list nat,
    outcome (retrieve_text query chunks index model tokenizer top_k)
    = Ok (map (fun i => nth i chunks EmptyString) positions
          ++ repeat (last chunks EmptyString)
                    (Z.to_nat top_k - List.length positions))
    /\ List.length positions = Nat.min (Z.to_nat top_k) (List.length chunks)
    /\ NoDup positions
    /\ Forall (fun i => (i < List.length chunks)%nat) positions
    /\ StronglySorted
         (fun i j => (fvec_L2sqr index qe (nth i (xb index) [])
                      <= fvec_L2sqr index qe (nth j (xb index) []))%Q)
         positions
    /\ (forall i j,
          In i positions ->
          (j < List.length chunks)%nat ->
          ~ In j positions ->
          (fvec_L2sqr index qe (nth i (xb index) [])
           <= fvec_L2sqr index qe (nth j (xb index) []))%Q).
Proof.
  intros Hq Hrows Hdim Hn Hne Hk.
  exact (retrieve_text_general query chunks index model tokenizer top_k
           query_embedding qe Hq Hrows Hdim Hn Hne Hk).
Qed.

Lemma retrieve_text_always_top_k_witness :
  exists positions : list nat,
    outcome (retrieve_text Toy.story_query Toy.story_chunks Toy.story_index
                           Toy.retrieval_model Toy.tokenizer 5)
    = Ok (map (fun i => nth i Toy.story_chunks EmptyString) positions
          ++ repeat (last Toy.story_chunks EmptyString)
                    (5 - List.length positions))
    /\ List.length positions = 2%nat
    /\ NoDup positions
    /\ Forall (fun i => (i < 2)%nat) positions
    /\ StronglySorted
         (fun i j =>
            (Toy.float32_L2sqr [9#1; 763#1] (nth i (xb Toy.story_index) [])
             <= Toy.float32_L2sqr [9#1; 763#1]
                                  (nth j (xb Toy.story_index) []))%Q)
         positions
    /\ (forall i j,
          In i positions ->
          (j < 2)%nat ->
          ~ In j positions ->
          (Toy.float32_L2sqr [9#1; 763#1] (nth i (xb Toy.story_index) [])
           <= Toy.float32_L2sqr [9#1; 763#1]
                                (nth j (xb Toy.story_index) []))%Q).
Proof.
  apply (retrieve_text_always_top_k
           Toy.story_query Toy.story_chunks Toy.story_index
           Toy.retrieval_model Toy.tokenizer 5
           Toy.story_query_embedding [9#1; 763#1]%Q).
  - reflexivity.
  - reflexivity.
  - reflexivity.
  - reflexivity.
  - discriminate.
  - lia.
Defined.

(** X8.  The search is exhaustive: for [1 <= top_k <= len(chunks)], no
    chunk that is left out has a smaller distance to the query, as the
    index computes it, than a chunk that is returned. *)
Theorem retrieve_text_nearest
        (query : string) (chunks : list string) (index : IndexFlatL2)
        (model : Encoder) (tokenizer : Tokenizer) (top_k : Z)
        (query_embedding : ndarray) (qe : vec) :
  outcome (encode_text [query] model tokenizer) = Ok query_embedding ->
  rows query_embedding = [qe] ->
  shape1 query_embedding = d index ->
  ntotal index = List.length chunks ->
  (1 <= top_k <= Z.of_nat (List.length chunks))%Z ->
  exists positions : list nat,
    outcome (retrieve_text query chunks index model tokenizer top_k)
    = Ok (map (fun i => nth i chunks EmptyString) positions)
    /\ forall i j,
         In i positions ->
         (j < List.length chunks)%nat ->
         ~ In j positions ->
         (fvec_L2sqr index qe (nth i (xb index) [])
          <= fvec_L2sqr index qe (nth j (xb index) []))%Q.
Proof.
  intros Hq Hrows Hdim Hn Hk.
  assert (Hne : chunks <> [])
    by (destruct chunks; [simpl in Hk; lia | discriminate]).
  assert (H1 : (1 <= top_k)%Z) by lia.
  destruct (retrieve_text_general query chunks index model tokenizer top_k
              query_embedding qe Hq Hrows Hdim Hn Hne H1)
    as (positions & Hout & Hlen & _ & _ & _ & Hnear).
  exists positions. split; [|exact Hnear].
  rewrite Hout, Hlen.
  replace (Z.to_nat top_k - Nat.min (Z.to_nat top_k) (List.length chunks))%nat
    with 0%nat by lia.
  simpl. now rewrite app_nil_r.
Qed.

Lemma retrieve_text_nearest_witness :
  exists positions : list nat,
    outcome (retrieve_text Toy.story_query Toy.story_chunks Toy.story_index
                           Toy.retrieval_model Toy.tokenizer 1)
    = Ok (map (fun i => nth i Toy.story_chunks EmptyString) positions)
    /\ forall i j,
         In i positions ->
         (j < 2)%nat ->
         ~ In j positions ->
         (Toy.float32_L2sqr [9#1; 763#1] (nth i (xb Toy.story_index) [])
          <= Toy.float32_L2sqr [9#1; 763#1]
                               (nth j (xb Toy.story_index) []))%Q.
Proof.
  apply (retrieve_text_nearest
           Toy.story_query Toy.story_chunks Toy.story_index
           Toy.retrieval_model Toy.tokenizer 1
           Toy.story_query_embedding [9#1; 763#1]%Q).
  - reflexivity.
  - reflexivity.
  - reflexivity.
  - reflexivity.
  - simpl. lia.
Defined.

(** X9.  Asked for as many results as there are chunks, [retrieve_text]
    returns all the chunks, each once, in another order. *)
Theorem retrieve_text_all_chunks
        (query : string) (chunks : list string) (index : IndexFlatL2)
        (model : Encoder) (tokenizer : Tokenizer)
        (query_embedding : ndarray) (qe : vec) :
  outcome (encode_text [query] model tokenizer) = Ok query_embedding ->
  rows query_embedding = [qe] ->
  shape1 query_embedding = d index ->
  ntotal index = List.length chunks ->
  chunks <> [] ->
  exists relevant_text,
    outcome (retrieve_text query chunks index model tokenizer
                           (Z.of_nat (List.length chunks)))
    = Ok relevant_text
    /\ Permutation relevant_text chunks.
Proof.
  intros Hq Hrows Hdim Hn Hne.
  assert (Hk : (1 <= Z.of_nat (List.length chunks)
                <= Z.of_nat (List.length chunks))%Z)
    by (destruct chunks; [contradiction | simpl; lia]).
  destruct (retrieve_text_positions query chunks index model tokenizer _
              query_embedding qe Hq Hrows Hdim Hn Hk)
    as (positions & Hout & Hlen & Hnd & Hin & _).
  exists (map (fun i => nth i chunks EmptyString) positions).
  split; [exact Hout|].
  apply (perm_trans
           (l' := map (fun i => nth i chunks EmptyString)
                      (seq 0 (List.length chunks))));
    [|rewrite map_nth_seq; apply Permutation_refl].
  apply Permutation_map.
  apply NoDup_Permutation_bis; [assumption | |].
  - rewrite length_seq, Hlen. lia.
  - intros i Hi. apply in_seq.
    apply (proj1 (Forall_forall _ _) Hin) in Hi. lia.
Qed.

Lemma retrieve_text_all_chunks_witness :
  exists relevant_text,
    outcome (retrieve_text Toy.story_query Toy.story_chunks Toy.story_index
                           Toy.retrieval_model Toy.tokenizer 2)
    = Ok relevant_text
    /\ Permutation relevant_text Toy.story_chunks.
Proof.
  apply (retrieve_text_all_chunks
           Toy.story_query Toy.story_chunks Toy.story_index
           Toy.retrieval_model Toy.tokenizer
           Toy.story_query_embedding [9#1; 763#1]%Q).
  - reflexivity.
  - reflexivity.
  - reflexivity.
  - reflexivity.
  - discriminate.
Defined.

(** X10.  A query embedding whose number of columns is not that of the
    index makes [retrieve_text] raise [AssertionError], whatever [top_k]
    and the chunks are. *)
Theorem retrieve_text_dimension_mismatch
        (query : string) (chunks : list string) (index : IndexFlatL2)
        (model : Encoder) (tokenizer : Tokenizer) (top_k : Z)
        (query_embedding : ndarray) :
  outcome (encode_text [query] model tokenizer) = Ok query_embedding ->
  shape1 query_embedding <> d index ->
  outcome (retrieve_text query chunks index model tokenizer top_k)
  = Err AssertionError.
Proof.
  intros Hq Hdim. rewrite retrieve_text_outcome, Hq. unfold search.
  replace (shape1 query_embedding =? d index) with false
    by (symmetry; now apply Nat.eqb_neq).
  reflexivity.
Qed.

Lemma retrieve_text_dimension_mismatch_witness :
  outcome (retrieve_text Toy.story_query Toy.story_chunks
                         {| d := 3; xb := []; fvec_L2sqr := Toy.float32_L2sqr |}
                         Toy.retrieval_model Toy.tokenizer 2)
  = Err AssertionError.
Proof.
  apply (retrieve_text_dimension_mismatch
           Toy.story_query Toy.story_chunks
           {| d := 3; xb := []; fvec_L2sqr := Toy.float32_L2sqr |}
           Toy.retrieval_model Toy.tokenizer 2 Toy.story_query_embedding).
  - reflexivity.
  - simpl. discriminate.
Defined.

End RetrieverMore.


(* ================================================================== *)
(** * Further properties of [answer_question] and of the driver *)

Module OrchestratorMore.

Import Faiss Models Chunker Pipeline PyFacts ChunkerFacts FaissFacts
       PipelineFacts RetrieverMore.

(** What [retrieve_text] returns has one text per label of the search. *)
Lemma retrieve_text_length (query : string) (chunks : list string)
      (index : IndexFlatL2) (model : Encoder) (tokenizer : Tokenizer)
      (top_k : Z) (relevant_text : list string) :
  outcome (retrieve_text query chunks index model tokenizer top_k)
  = Ok relevant_text ->
  (1 <= top_k)%Z /\ List.length relevant_text = Z.to_nat top_k.
Proof.
  rewrite retrieve_text_outcome.
  destruct (outcome (encode_text _ _ _)) as [qa|]; [|discriminate].
  destruct (search index qa top_k) as [[D I]|] eqn:Es; [|discriminate].
  destruct (search_label_rows _ _ _ _ _ Es) as [Hk Hrows].
  destruct (getitem I 0) as [row|] eqn:Er; [|discriminate].
  intros H. split; [exact Hk|].
  rewrite (for_each_length _ _ _ H).
  apply getitem_In in Er.
  exact (proj1 (Forall_forall _ _) Hrows row Er).
Qed.

(** X11.  Whenever [retrieve_text] returns, [top_k] is at least 1, there is
    at least one chunk, and the result has exactly [top_k] texts, every one
    of them a chunk: fewer chunks than [top_k] never shorten the result. *)
Theorem retrieve_text_returns_top_k
        (query : string) (chunks : list string) (index : IndexFlatL2)
        (model : Encoder) (tokenizer : Tokenizer) (top_k : Z)
        (relevant_text : list string) :
  outcome (retrieve_text query chunks index model tokenizer top_k)
  = Ok relevant_text ->
  (1 <= top_k)%Z
  /\ List.length relevant_text = Z.to_nat top_k
  /\ chunks <> []
  /\ Forall (fun p => In p chunks) relevant_text.
Proof.
  intros H.
  destruct (retrieve_text_length _ _ _ _ _ _ _ H) as [Hk Hlen].
  pose proof (retrieve_text_members _ _ _ _ _ _ _ H) as Hin.
  repeat split; try assumption.
  intros ->.
  destruct relevant_text as [|p rest]; [simpl in Hlen; lia|].
  inversion Hin as [|? ? Hp _]; subst. contradiction.
Qed.

Lemma retrieve_text_returns_top_k_witness :
  (1 <= 3)%Z
  /\ List.length ["Alpha beta."%string; "Alpha beta."%string; "Alpha beta."%string]
     = Z.to_nat 3
  /\ Toy.lone_chunks <> []
  /\ Forall (fun p => In p Toy.lone_chunks)
            ["Alpha beta."%string; "Alpha beta."%string; "Alpha beta."%string].
Proof.
  apply (retrieve_text_returns_top_k
           Toy.lone_query Toy.lone_chunks Toy.lone_index
           Toy.retrieval_model Toy.tokenizer 3).
  reflexivity.
Defined.

Lemma all_the_same (c : string) (l : list string) :
  Forall (fun p => In p [c]) l -> l = repeat c (List.length l).
Proof.
  induction 1 as [|p l Hp _ IH]; [reflexivity|].
  simpl. destruct Hp as [<-|[]]. now rewrite <- IH.
Qed.

Section WithGlobals.

Variable sent_tokenize : string -> list string.
Variable faiss : kernel.
Variable retrieval_model : Encoder.
Variable tokenizer : Tokenizer.
Variable generation_model : Seq2Seq.
Variable generation_tokenizer : Tokenizer.

Local Abbreviation chunk_text := (Chunker.chunk_text sent_tokenize).
Local Abbreviation answer_question :=
  (Pipeline.answer_question sent_tokenize faiss retrieval_model tokenizer
                            generation_model generation_tokenizer).
Local Abbreviation loop_iteration :=
  (Pipeline.loop_iteration sent_tokenize faiss retrieval_model tokenizer
                           generation_model generation_tokenizer).
Local Abbreviation main_loop :=
  (Pipeline.main_loop sent_tokenize faiss retrieval_model tokenizer
                      generation_model generation_tokenizer).
Local Abbreviation main :=
  (Pipeline.main sent_tokenize faiss retrieval_model tokenizer
                 generation_model generation_tokenizer).

(** X12.  The models that [answer_question] runs are a beginning of: the
    encoder on the chunks, the encoder on the question, the generator once.
    It stops before the third run only with an exception, and it runs the
    generator only on a context joined from exactly three chunks of the
    book text. *)
Theorem answer_question_calls_shape (book_text question : string) :
  (calls (answer_question book_text question) = []
   /\ exists e, outcome (answer_question book_text question) = Err e)
  \/ (calls (answer_question book_text question)
      = [Encode (chunk_text book_text default_chunk_size)]
      /\ exists e, outcome (answer_question book_text question) = Err e)
  \/ (calls (answer_question book_text question)
      = [Encode (chunk_text book_text default_chunk_size); Encode [question]]
      /\ exists e, outcome (answer_question book_text question) = Err e)
  \/ (exists relevant_text,
        calls (answer_question book_text question)
        = [Encode (chunk_text book_text default_chunk_size);
           Encode [question];
           Generate (input_text (join " " relevant_text) question)]
        /\ List.length relevant_text = 3%nat
        /\ Forall (fun p => In p (chunk_text book_text default_chunk_size))
                  relevant_text).
Proof.
  unfold Pipeline.answer_question. cbv zeta.
  rewrite calls_bind, outcome_bind.
  destruct (build_faiss_index_calls_prefix
              faiss (chunk_text book_text default_chunk_size)
              retrieval_model tokenizer) as [Hb|[Hb [e He]]]; rewrite Hb.
  2: { left. rewrite He. split; [reflexivity | now exists e]. }
  destruct (outcome (build_faiss_index _ _ _ _))
    as [[index embeddings]|e].
  2: { right. left. split; [reflexivity | now exists e]. }
  rewrite calls_bind, outcome_bind.
  destruct (retrieve_text_calls_prefix
              question (chunk_text book_text default_chunk_size) index
              retrieval_model tokenizer default_top_k)
    as [Hr|[Hr [e He]]]; rewrite Hr.
  2: { right. left. rewrite He. split; [reflexivity | now exists e]. }
  destruct (outcome (retrieve_text _ _ _ _ _ _)) as [relevant_text|e] eqn:Er.
  2: { right. right. left. split; [reflexivity | now exists e]. }
  destruct (generate_answer_calls_prefix
              (join " " relevant_text) question generation_model
              generation_tokenizer) as [Hg|[Hg [e He]]]; rewrite Hg.
  - right. right. right. exists relevant_text.
    destruct (retrieve_text_length _ _ _ _ _ _ _ Er) as [_ Hlen].
    repeat split; [exact Hlen|].
    eapply retrieve_text_members. exact Er.
  - right. right. left. split; [reflexivity | now exists e].
Qed.

(** X13.  For a book that has sentences and fewer than 200 words, an answer
    is generated from the whole book three times over: the one chunk is
    the book, and the context is this chunk, a space, the chunk, a space
    and the chunk again. *)
Theorem answer_question_short_book (book_text question answer : string) :
  sent_tokenize book_text <> [] ->
  (total_words (sent_tokenize book_text) < 200)%Z ->
  outcome (answer_question book_text question) = Ok answer ->
  calls (answer_question book_text question)
  = [Encode [join " " (sent_tokenize book_text)];
     Encode [question];
     Generate
       (input_text
          (join " " (sent_tokenize book_text) ++ " "
           ++ join " " (sent_tokenize book_text) ++ " "
           ++ join " " (sent_tokenize book_text))%string
          question)].
Proof.
  intros Hne Hlt Hok.
  assert (Hc : chunk_text book_text default_chunk_size
               = [join " " (sent_tokenize book_text)]).
  { rewrite chunk_text_groups. unfold chunk_groups.
    change 0%Z with (total_words []).
    rewrite groups_single; [reflexivity | exact Hne |].
    simpl total_words. unfold default_chunk_size. lia. }
  destruct (OrchestratorSpec.answer_question_ok _ _ _ _ _ _ _ _ _ Hok)
    as (index & embeddings & relevant_text & _ & Hr & _ & Hcalls).
  cbv zeta in Hr. rewrite Hcalls, Hc. rewrite Hc in Hr.
  destruct (retrieve_text_length _ _ _ _ _ _ _ Hr) as [_ Hlen].
  pose proof (retrieve_text_members _ _ _ _ _ _ _ Hr) as Hin.
  apply all_the_same in Hin. rewrite Hlen in Hin. rewrite Hin.
  reflexivity.
Qed.

(** ** The driver *)

(** Questions that are not the exit word and are answered, one after
    another, leave the loop where it was, the answers printed and the
    calls recorded. *)
Lemma main_loop_answers (questions answers tail : list string) (s : session) :
  Forall2 (fun question answer =>
             lower question <> "exit"%string
             /\ outcome (answer_question (book_text s) question) = Ok answer)
          questions answers ->
  main_loop s (questions ++ tail)
  = main_loop
      {| book_text := book_text s;
         printed := printed s ++ map (append "Answer: ") answers;
         made := made s
                 ++ flat_map (fun question =>
                                calls (answer_question (book_text s) question))
                             questions |}
      tail.
Proof.
  revert answers s.
  induction questions as [|question questions IH]; intros answers s H.
  - inversion H; subst. simpl. rewrite !app_nil_r. now destruct s.
  - inversion H as [|? answer ? answers' [Hexit Hans] Hrest]; subst.
    cbn [app Pipeline.main_loop]. unfold Pipeline.loop_iteration.
    apply String.eqb_neq in Hexit. rewrite Hexit.
    unfold outcome in Hans.
    destruct (Pipeline.answer_question _ _ _ _ _ _ _ _) as [l r] eqn:E.
    simpl in Hans. subst r.
    rewrite (IH answers') by exact Hrest. simpl.
    unfold calls at 2. rewrite E. simpl.
    now rewrite <- !app_assoc.
Qed.

(** X14.  A session in which every question before the exit word is
    answered: the driver prints the answers in order, each after
    [Answer: ], and stops at the first line that is [exit] in any case of
    letters; what follows that line is not read. *)
Theorem main_exits (text : string) (questions answers : list string)
        (word : string) (rest : list string) :
  Forall2 (fun question answer =>
             lower question <> "exit"%string
             /\ outcome (answer_question text question) = Ok answer)
          questions answers ->
  lower word = "exit"%string ->
  main text (questions ++ word :: rest)
  = Exited {| book_text := text;
              printed := map (append "Answer: ") answers;
              made := flat_map (fun question =>
                                  calls (answer_question text question))
                               questions |}.
Proof.
  intros H Hw. unfold Pipeline.main.
  rewrite (main_loop_answers questions answers). 2: exact H.
  cbn [Pipeline.main_loop]. unfold Pipeline.loop_iteration.
  rewrite Hw. reflexivity.
Qed.

(** X15.  When the input ends without the exit word, the questions having
    been answered, the driver has printed the answers and then raises
    [EOFError]. *)
Theorem main_end_of_input (text : string) (questions answers : list string) :
  Forall2 (fun question answer =>
             lower question <> "exit"%string
             /\ outcome (answer_question text question) = Ok answer)
          questions answers ->
  main text questions
  = Raised {| book_text := text;
              printed := map (append "Answer: ") answers;
              made := flat_map (fun question =>
                                  calls (answer_question text question))
                               questions |}
           EOFError.
Proof.
  intros H. unfold Pipeline.main.
  rewrite <- (app_nil_r questions) at 1.
  rewrite (main_loop_answers questions answers). 2: exact H.
  reflexivity.
Qed.

(** X16.  The first question on which [answer_question] raises ends the
    session with that exception: the answers before it stay printed,
    nothing is printed for it, and the questions after it are not read. *)
Theorem main_stops_at_exception
        (text : string) (questions answers : list string)
        (question : string) (rest : list string) (e : exn) :
  Forall2 (fun question answer =>
             lower question <> "exit"%string
             /\ outcome (answer_question text question) = Ok answer)
          questions answers ->
  lower question <> "exit"%string ->
  outcome (answer_question text question) = Err e ->
  main text (questions ++ question :: rest)
  = Raised {| book_text := text;
              printed := map (append "Answer: ") answers;
              made := flat_map (fun question =>
                                  calls (answer_question text question))
                               questions
                      ++ calls (answer_question text question) |}
           e.
Proof.
  intros H Hq He. unfold Pipeline.main.
  rewrite (main_loop_answers questions answers). 2: exact H.
  cbn [Pipeline.main_loop]. unfold Pipeline.loop_iteration.
  apply String.eqb_neq in Hq. simpl book_text. rewrite Hq.
  destruct (Pipeline.answer_question _ _ _ _ _ _ _ _) as [l r] eqn:E.
  unfold outcome in He. simpl in He. subst r.
  reflexivity.
Qed.

(** X17.  Nothing is kept from one question to the next: for every
    question that is answered the book is chunked and encoded again, then
    the question is encoded and one generation is made, so a session of
    [n] answered questions makes [3 n] calls, [n] of them on the chunks of
    the whole book. *)
Theorem main_encodes_book_per_question
        (text : string) (questions answers : list string)
        (word : string) (rest : list string) :
  Forall2 (fun question answer =>
             lower question <> "exit"%string
             /\ outcome (answer_question text question) = Ok answer)
          questions answers ->
  lower word = "exit"%string ->
  exists contexts : list string,
    List.length contexts = List.length questions
    /\ made (session_of (main text (questions ++ word :: rest)))
       = flat_map
           (fun qc =>
              [Encode (chunk_text text default_chunk_size);
               Encode [fst qc];
               Generate (input_text (snd qc) (fst qc))])
           (combine questions contexts).
Proof.
  intros H Hw. unfold Pipeline.main.
  rewrite (main_loop_answers questions answers). 2: exact H.
  cbn [Pipeline.main_loop]. unfold Pipeline.loop_iteration.
  rewrite Hw. simpl. clear Hw.
  induction H as [|question answer questions answers [_ Hans] _ IH].
  - exists []. split; reflexivity.
  - destruct IH as (contexts & Hlen & Hmade).
    destruct (OrchestratorSpec.answer_question_ok _ _ _ _ _ _ _ _ _ Hans)
      as (_ & _ & relevant_text & _ & _ & _ & Hcalls).
    exists (join " " relevant_text :: contexts).
    split; [simpl; now rewrite Hlen|].
    simpl. rewrite Hcalls, Hmade. reflexivity.
Qed.

End WithGlobals.

Lemma answer_question_short_book_witness :
  calls (Toy.answer_question "Alpha beta." "Alpha?")
  = [Encode [join " " (Toy.sent_tokenize "Alpha beta.")];
     Encode ["Alpha?"%string];
     Generate
       (input_text
          (join " " (Toy.sent_tokenize "Alpha beta.") ++ " "
           ++ join " " (Toy.sent_tokenize "Alpha beta.") ++ " "
           ++ join " " (Toy.sent_tokenize "Alpha beta."))%string
          "Alpha?")].
Proof.
  apply (answer_question_short_book
           Toy.sent_tokenize Toy.float32_L2sqr Toy.retrieval_model
           Toy.tokenizer Toy.generation_model Toy.tokenizer "Alpha beta." "Alpha?"
           "question: Alpha? context: Alpha beta. Alpha beta. Alpha beta.").
  - vm_compute. discriminate.
  - vm_compute. reflexivity.
  - reflexivity.
Defined.

Lemma main_exits_witness :
  Toy.main "Alpha beta." ["Alpha?"%string; "Exit"%string; "Beta?"%string]
  = Exited {| book_text := "Alpha beta.";
              printed :=
                map (append "Answer: ")
                    ["question: Alpha? context: Alpha beta. Alpha beta. Alpha beta."%string];
              made := flat_map (fun question =>
                                  calls (Toy.answer_question "Alpha beta." question))
                               ["Alpha?"%string] |}.
Proof.
  apply (main_exits
           Toy.sent_tokenize Toy.float32_L2sqr Toy.retrieval_model
           Toy.tokenizer Toy.generation_model Toy.tokenizer "Alpha beta."
           ["Alpha?"%string]
           ["question: Alpha? context: Alpha beta. Alpha beta. Alpha beta."%string]
           "Exit" ["Beta?"%string]).
  - constructor; [|constructor]. split; [vm_compute; discriminate | reflexivity].
  - reflexivity.
Defined.

Lemma main_end_of_input_witness :
  Toy.main "Alpha beta." ["Alpha?"%string]
  = Raised {| book_text := "Alpha beta.";
              printed :=
                map (append "Answer: ")
                    ["question: Alpha? context: Alpha beta. Alpha beta. Alpha beta."%string];
              made := flat_map (fun question =>
                                  calls (Toy.answer_question "Alpha beta." question))
                               ["Alpha?"%string] |}
           EOFError.
Proof.
  apply (main_end_of_input
           Toy.sent_tokenize Toy.float32_L2sqr Toy.retrieval_model
           Toy.tokenizer Toy.generation_model Toy.tokenizer "Alpha beta."
           ["Alpha?"%string]
           ["question: Alpha? context: Alpha beta. Alpha beta. Alpha beta."%string]).
  constructor; [|constructor]. split; [vm_compute; discriminate | reflexivity].
Defined.

Lemma main_stops_at_exception_witness :
  Toy.main "   " ["Alpha?"%string; "Beta?"%string]
  = Raised {| book_text := "   ";
              printed := map (append "Answer: ") [];
              made := flat_map (fun question =>
                                  calls (Toy.answer_question "   " question))
                               []
                      ++ calls (Toy.answer_question "   " "Alpha?") |}
           IndexError.
Proof.
  apply (main_stops_at_exception
           Toy.sent_tokenize Toy.float32_L2sqr Toy.retrieval_model
           Toy.tokenizer Toy.generation_model Toy.tokenizer "   " [] []
           "Alpha?" ["Beta?"%string] IndexError).
  - constructor.
  - vm_compute. discriminate.
  - reflexivity.
Defined.

Lemma main_encodes_book_per_question_witness :
  exists contexts : list string,
    List.length contexts = 1%nat
    /\ made (session_of
               (Toy.main "Alpha beta."
                         ["Alpha?"%string; "Exit"%string; "Beta?"%string]))
       = flat_map
           (fun qc =>
              [Encode (Toy.chunk_text "Alpha beta." default_chunk_size);
               Encode [fst qc];
               Generate (input_text (snd qc) (fst qc))])
           (combine ["Alpha?"%string] contexts).
Proof.
  apply (main_encodes_book_per_question
           Toy.sent_tokenize Toy.float32_L2sqr Toy.retrieval_model
           Toy.tokenizer Toy.generation_model Toy.tokenizer "Alpha beta."
           ["Alpha?"%string]
           ["question: Alpha? context: Alpha beta. Alpha beta. Alpha beta."%string]
           "Exit" ["Beta?"%string]).
  - constructor; [|constructor]. split; [vm_compute; discriminate | reflexivity].
  - reflexivity.
Defined.

End OrchestratorMore.
